(** * manners: graceful shutdown of a net/http server

    A shallow embedding of [server.go].  The file holds two variants of the
    package; they are embedded side by side as the modules [V1] (the variant
    that keeps the last HTTP state inside the connection wrapper and has a
    [StateHandler] option) and [V2] (the variant with the [lastConnState]
    map and the [listen] helpers).

    Conventions of the embedding.
    - A method is a computation in the monad [M W]: it takes the world [W]
      (the server struct, the variables captured by the closures of [Serve],
      the operating-system oracles and the trace of calls made on external
      collaborators) and gives an outcome together with the new world.
    - An outcome is a normal return, a Go panic, or a goroutine that stays
      blocked.  The world reached at a panic is kept: the statements executed
      before it have had their effect.
    - [sync.WaitGroup] is the counter documented by the Go library: [Add]
      adds its argument and panics when the counter becomes negative,
      [Done] is [Add (-1)], [Wait] returns once the counter is zero.
    - Goroutines are sequentialised: the goroutine started by [Serve] runs
      the rest of its body as soon as the channel operation it waits on
      completes.  The locks around the map accesses are therefore omitted. *)

From Stdlib Require Import ZArith String List Lia.
From stdpp Require Import base option list gmap strings.

Open Scope Z_scope.

(** ** net/http connection states *)

(** [http.ConnState], in the order of the constants of net/http; the zero
    value, read from a map that has no entry, is [StateNew]. *)
Inductive ConnState :=
| StateNew | StateActive | StateIdle | StateHijacked | StateClosed.

#[global] Instance ConnState_eq_dec : EqDecision ConnState.
Proof. solve_decision. Defined.

(** A [net.Conn] is identified by its handle. *)
Abbreviation Conn := nat.

(** ** Errors *)

Inductive error :=
| listenerAlreadyClosed            (* the error type of the closed GracefulListener *)
| errNotExist (path : string)      (* the errors recognised by os.IsNotExist *)
| errorString (msg : string).      (* every other error value *)

#[global] Instance error_eq_dec : EqDecision error.
Proof. solve_decision. Defined.

Definition os_IsNotExist (err : error) : bool :=
  match err with errNotExist _ => true | _ => false end.

(** ** Listeners *)

Inductive Listener :=
| TCPListener (addr : string)
| UnixListener (addr : string)
| TLSListener (inner : Listener)
| GracefulListener (inner : Listener).

(** ** Calls made on external collaborators, in program order *)

Inductive Effect :=
| EConnClose (conn : Conn)                          (* conn.Close() *)
| EStateHandler (conn : Conn) (old new : ConnState) (* the injected StateHandler *)
| EConnState (conn : Conn) (new : ConnState)        (* the ConnState hook found on http.Server *)
| ESetKeepAlivesEnabled (b : bool)
| EListenerClose
| ELogPrintf (format arg : string)                 (* logger.Printf with one %s argument *)
| ERemove (path : string)
| EChmod (path : string)
| ENetListen (network addr : string)
| EHttpServe (l : Listener)                         (* http.Server.Serve: the accept loop *)
| EFcgiServe (l : Listener).                        (* fcgi.Serve: the accept loop *)

#[global] Instance Listener_eq_dec : EqDecision Listener.
Proof. solve_decision. Defined.

#[global] Instance Effect_eq_dec : EqDecision Effect.
Proof. solve_decision. Defined.

(** ** The monad of outcomes over a world *)

Inductive res (A : Type) :=
| Ret (a : A)
| Panic
| Block.
Arguments Ret {A} a.
Arguments Panic {A}.
Arguments Block {A}.

Definition M (W A : Type) : Type := W -> res A * W.

Definition ret {W A} (a : A) : M W A := fun w => (Ret a, w).

Definition bind {W A B} (m : M W A) (k : A -> M W B) : M W B :=
  fun w =>
    match m w with
    | (Ret a, w') => k a w'
    | (Panic, w') => (Panic, w')
    | (Block, w') => (Block, w')
    end.

Definition gets {W A} (f : W -> A) : M W A := fun w => (Ret (f w), w).
Definition modify {W} (f : W -> W) : M W unit := fun w => (Ret tt, f w).
Definition panic {W A} : M W A := fun w => (Panic, w).
Definition block {W A} : M W A := fun w => (Block, w).

Declare Scope go_scope.
Delimit Scope go_scope with go.
Notation "'let*' x := m 'in' k" := (bind m (fun x => k))
  (at level 10, x pattern, m at level 100, k at level 200) : go_scope.
Notation "m ';;;' k" := (bind m (fun _ => k))
  (at level 100, k at level 200, right associativity) : go_scope.
Open Scope go_scope.

Definition when {W} (b : bool) (m : M W unit) : M W unit :=
  if b then m else ret tt.

(** ** strings *)

Definition strings_HasPrefix (s p : string) : bool := String.prefix p s.

Definition strings_Contains (s substr : string) : bool :=
  match String.index 0 substr s with Some _ => true | None => false end.

(** ** Connection-state notifications *)

(** What the serving engine does while [Serve] runs, as far as the server
    sees it: it reports a state change of a connection, or some goroutine
    calls [Close] on the server. *)
Inductive Event :=
| Notify (conn : Conn) (newState : ConnState)
| CallClose.

Definition isTerminal (st : ConnState) : bool :=
  match st with StateClosed | StateHijacked => true | _ => false end.

(** [concerns c ev]: [ev] is a notification about connection [c]. *)
Definition concerns (c : Conn) (ev : Event) : Prop :=
  match ev with Notify c' _ => c' = c | CallClose => False end.

#[global] Instance concerns_dec c ev : Decision (concerns c ev).
Proof. destruct ev; simpl; apply _. Defined.

(** The states notified for connection [c], in order. *)
Fixpoint proj (c : Conn) (evs : list Event) : list ConnState :=
  match evs with
  | [] => []
  | Notify c' st :: evs' =>
      if bool_decide (c' = c) then st :: proj c evs' else proj c evs'
  | CallClose :: evs' => proj c evs'
  end.

(** The connections that occur in [evs]. *)
Fixpoint connsOf (evs : list Event) : list Conn :=
  match evs with
  | [] => []
  | Notify c _ :: evs' => c :: connsOf evs'
  | CallClose :: evs' => connsOf evs'
  end.

(** The order in which net/http reports the states of one connection:
    New first, then Active and Idle in alternation, and Closed or Hijacked
    last, from any of the three. *)
Definition allowed (prev : option ConnState) (new : ConnState) : bool :=
  match prev, new with
  | None, StateNew => true
  | Some StateNew, (StateActive | StateClosed | StateHijacked) => true
  | Some StateActive, (StateIdle | StateClosed | StateHijacked) => true
  | Some StateIdle, (StateActive | StateClosed | StateHijacked) => true
  | _, _ => false
  end.

Fixpoint lifecycleFrom (prev : option ConnState) (l : list ConnState) : bool :=
  match l with
  | [] => true
  | st :: l' => allowed prev st && lifecycleFrom (Some st) l'
  end.

(** Every connection of [evs] is reported in order. *)
Definition ordered (evs : list Event) : bool :=
  forallb (fun c => lifecycleFrom None (proj c evs)) (connsOf evs).

(** A whole lifetime: in order, and ended by Closed or Hijacked. *)
Definition wholeLifetime (l : list ConnState) : bool :=
  lifecycleFrom None l &&
  match last l with Some st => isTerminal st | None => false end.

(** The state a connection is in: the last one reported for it. *)
Definition current (evs : list Event) (c : Conn) : option ConnState :=
  last (proj c evs).

(** Not idle and not terminated: New or Active. *)
Definition busy (o : option ConnState) : bool :=
  match o with
  | Some StateNew | Some StateActive => true
  | _ => false
  end.

(** The connections that are in a non-idle, non-terminal state after [evs]. *)
Definition inFlight (evs : list Event) : gset Conn :=
  filter (fun c => busy (current evs c) = true) (list_to_set (connsOf evs)).

(** The events of the engine, handled one after the other by [step]; a
    panic or a blocked call ends the run. *)
Fixpoint runEvents {W} (step : Event -> M W unit) (evs : list Event) : M W unit :=
  match evs with
  | [] => ret tt
  | ev :: evs' => step ev ;;; runEvents step evs'
  end.

(** What the notifications of connection [c] add to the drain counter over
    the run of [evs] from [w]: the sum, over the calls of the callback for
    [c], of the counter after the call minus the counter before it. *)
Fixpoint netEffectOf {W} (step : Event -> M W unit) (counter : W -> Z)
    (c : Conn) (evs : list Event) (w : W) : Z :=
  match evs with
  | [] => 0
  | ev :: evs' =>
      let '(r, w') := step ev w in
      (if bool_decide (concerns c ev) then counter w' - counter w else 0)
      + match r with Ret _ => netEffectOf step counter c evs' w' | _ => 0 end
  end.

(** The switch of the callback as a function of the state last recorded
    for the connection and of the new state: what it adds to the counter. *)
Definition switchEffect (last new : ConnState) : Z :=
  match new with
  | StateNew => 1
  | StateActive => if bool_decide (last = StateIdle) then 1 else 0
  | StateIdle => -1
  | StateClosed | StateHijacked =>
      if bool_decide (last <> StateIdle) then -1 else 0
  end.

(** One for a busy connection, zero otherwise. *)
Definition weight (o : option ConnState) : Z := if busy o then 1 else 0.

(** The last state of [l], or [prev] when [l] is empty. *)
Definition lastOr (prev : option ConnState) (l : list ConnState)
  : option ConnState :=
  fold_left (fun _ st => Some st) l prev.

(** Some goroutine calls [Close] during the run. *)
Fixpoint hasClose (evs : list Event) : bool :=
  match evs with
  | [] => false
  | CallClose :: _ => true
  | Notify _ _ :: evs' => hasClose evs'
  end.

(** A run of two connections with a shutdown request in between. *)
Definition sampleRun : list Event :=
  [Notify 1 StateNew; Notify 2 StateNew; Notify 1 StateActive; CallClose;
   Notify 1 StateIdle; Notify 1 StateActive; Notify 2 StateActive;
   Notify 1 StateClosed].

(** The same run, continued until the second connection is idle too. *)
Definition drainedRun : list Event := sampleRun ++ [Notify 2 StateIdle].

(** The world [w] stands where the run [pre] has led: its counter is the
    number of busy connections and the state it reads for a connection
    that has not terminated is the current one. *)
Definition follows {W} (counter : W -> Z) (lastOf : W -> Conn -> ConnState)
    (pre : list Event) (w : W) : Prop :=
  counter w = Z.of_nat (size (inFlight pre)) /\
  forall c p, current pre c = Some p -> isTerminal p = false -> lastOf w c = p.

(** How many times [Close] is called during the run. *)
Fixpoint countClose (evs : list Event) : nat :=
  match evs with
  | [] => O
  | CallClose :: evs' => S (countClose evs')
  | Notify _ _ :: evs' => countClose evs'
  end.

(** The engine as [Serve] sees it: the events that occur while the accept
    loop runs, and the error the accept loop finally returns. *)
Record Engine := mkEngine {
  events : list Event;
  result : option error;
}.

(** An operating system with an empty directory and a free network. *)
Definition noSuchFile (path : string) : option error := Some (errNotExist path).
Definition removeOk (path : string) : option error := None.
(** An operating system in which every path names an existing file. *)
Definition fileExists (path : string) : option error := None.
Definition listenOk (network addr : string) : option error := None.

(** * Variant 2: the server with the [lastConnState] map *)

Module V2.

(** [shutdown chan bool], unbuffered.  [ChanSending v]: the goroutine of
    [Serve] is blocked in [s.shutdown <- v]. *)
Inductive chan := ChanOpen | ChanSending (v : bool) | ChanClosed.

Record GracefulServer := mkServer {
  Addr : string;                          (* http.Server.Addr *)
  ServerConnState : bool;                 (* http.Server.ConnState set by the host *)
  shutdown : chan;
  wg : Z;                                 (* the sync.WaitGroup counter *)
  lastConnState : gmap Conn ConnState;
}.

(** The server, the variables of [Serve] its closures capture, the
    operating system as oracles, and the calls made so far. *)
Record World := mkWorld {
  server : GracefulServer;
  closing : Z;                            (* var closing int32 *)
  originalConnState : bool;               (* originalConnState != nil *)
  os_Stat : string -> option error;
  os_Remove : string -> option error;
  net_Listen : string -> string -> option error;
  effects : list Effect;
}.

Definition NewWithServer (addr : string) (hook : bool) : GracefulServer :=
  {| Addr := addr; ServerConnState := hook; shutdown := ChanOpen; wg := 0;
     lastConnState := ∅ |}.

Definition set_server (f : GracefulServer -> GracefulServer) (w : World) : World :=
  {| server := f (server w); closing := closing w;
     originalConnState := originalConnState w;
     os_Stat := os_Stat w; os_Remove := os_Remove w;
     net_Listen := net_Listen w; effects := effects w |}.

Definition set_wg (v : Z) (s : GracefulServer) : GracefulServer :=
  {| Addr := Addr s; ServerConnState := ServerConnState s; shutdown := shutdown s;
     wg := v; lastConnState := lastConnState s |}.

Definition set_lastConnState (m : gmap Conn ConnState) (s : GracefulServer)
  : GracefulServer :=
  {| Addr := Addr s; ServerConnState := ServerConnState s; shutdown := shutdown s;
     wg := wg s; lastConnState := m |}.

Definition set_shutdown (c : chan) (s : GracefulServer) : GracefulServer :=
  {| Addr := Addr s; ServerConnState := ServerConnState s; shutdown := c;
     wg := wg s; lastConnState := lastConnState s |}.

Definition set_closing (v : Z) (w : World) : World :=
  {| server := server w; closing := v;
     originalConnState := originalConnState w;
     os_Stat := os_Stat w; os_Remove := os_Remove w;
     net_Listen := net_Listen w; effects := effects w |}.

Definition set_frame (orig : bool) (w : World) : World :=
  {| server := server w; closing := 0;
     originalConnState := orig;
     os_Stat := os_Stat w; os_Remove := os_Remove w;
     net_Listen := net_Listen w; effects := effects w |}.

Definition emit (e : Effect) : M World unit :=
  modify (fun w =>
    {| server := server w; closing := closing w;
       originalConnState := originalConnState w;
       os_Stat := os_Stat w; os_Remove := os_Remove w;
       net_Listen := net_Listen w; effects := effects w ++ [e] |}).

(** sync.WaitGroup *)
Definition wg_Add (delta : Z) : M World unit :=
  fun w =>
    let v := wg (server w) + delta in
    let w' := set_server (set_wg v) w in
    if v <? 0 then (Panic, w') else (Ret tt, w').

Definition wg_Done : M World unit := wg_Add (-1).

Definition wg_Wait : M World unit :=
  fun w => if wg (server w) =? 0 then (Ret tt, w) else (Block, w).

Definition StartRoutine : M World unit := wg_Add 1.
Definition FinishRoutine : M World unit := wg_Done.

(** The remainder of the goroutine of [Serve], after its send completed. *)
Definition shutdownRoutine : M World unit :=
  modify (set_server (set_shutdown ChanClosed)) ;;;
  modify (set_closing 1) ;;;
  emit (ESetKeepAlivesEnabled false) ;;;
  emit EListenerClose.

(** The line [Close] writes to the log. *)
Definition ELogShutdown (addr : string) : Effect :=
  ELogPrintf "Shutting down server on %s\n" addr.

(** [Close]: log, then receive from [shutdown]. *)
Definition Close : M World bool :=
  let* addr := gets (fun w => Addr (server w)) in
  emit (ELogShutdown addr) ;;;
  let* ch := gets (fun w => shutdown (server w)) in
  match ch with
  | ChanSending v => shutdownRoutine ;;; ret v
  | ChanClosed => ret false
  | ChanOpen => block
  end.

(** [s.lastConnState[conn]]: the zero value when there is no entry. *)
Definition lastOf (w : World) (conn : Conn) : ConnState :=
  default StateNew (lastConnState (server w) !! conn).

(** [Serve] has started its goroutine: a receive from [shutdown] completes. *)
Definition serving (w : World) : Prop := shutdown (server w) <> ChanOpen.

(** The closure [Serve] installs as [s.ConnState]. *)
Definition connState (conn : Conn) (newState : ConnState) : M World unit :=
  let* lastConnState := gets (fun w => lastOf w conn) in
  match newState with
  | StateNew => StartRoutine
  | StateActive =>
      when (bool_decide (lastConnState = StateIdle)) StartRoutine
  | StateIdle =>
      (let* c := gets closing in when (c =? 1) (emit (EConnClose conn))) ;;;
      FinishRoutine
  | StateClosed | StateHijacked =>
      when (bool_decide (lastConnState <> StateIdle)) FinishRoutine
  end ;;;
  (if bool_decide (newState = StateClosed) || bool_decide (newState = StateHijacked)
   then modify (set_server (fun s =>
          set_lastConnState (delete conn (V2.lastConnState s)) s))
   else modify (set_server (fun s =>
          set_lastConnState (<[conn := newState]> (V2.lastConnState s)) s))) ;;;
  let* orig := gets originalConnState in
  when orig (emit (EConnState conn newState)).

(** The events of the engine, in the order they occur. *)
Definition step (ev : Event) : M World unit :=
  match ev with
  | Notify conn newState => connState conn newState
  | CallClose => Close ;;; ret tt
  end.

Definition runEngine : list Event -> M World unit := runEvents step.

(** What the notifications of connection [c] add to the counter. *)
Definition netEffect (c : Conn) (evs : list Event) (w : World) : Z :=
  netEffectOf step (fun w => wg (server w)) c evs w.

Definition isUnixNetwork (addr : string) : bool :=
  strings_HasPrefix addr "/" || strings_HasPrefix addr ".".

(** [net.Listen]: the operating system decides; a listener of the type of
    the network on success. *)
Definition net_listen (network addr : string) : M World (Listener + error) :=
  emit (ENetListen network addr) ;;;
  let* r := gets (fun w => net_Listen w network addr) in
  match r with
  | Some err => ret (inr err)
  | None =>
      ret (inl (if bool_decide (network = "unix")
                then UnixListener addr else TCPListener addr))
  end.

Definition listenToUnix (bind : string) : M World (Listener + error) :=
  let* err := gets (fun w => os_Stat w bind) in
  let* early :=
    match err with
    | None =>
        (* socket exists and is "already in use" *)
        emit (ERemove bind) ;;;
        gets (fun w => os_Remove w bind)
    | Some e => if negb (os_IsNotExist e) then ret (Some e) else ret None
    end in
  match early with
  | Some e => ret (inr e)
  | None => net_listen "unix" bind
  end.

Definition listen (bind : string) : M World (Listener + error) :=
  if isUnixNetwork bind then
    emit (ELogPrintf "Listening on unix socket %s\n" bind) ;;;
    listenToUnix bind
  else if strings_Contains bind ":" then
    emit (ELogPrintf "Listening on tcp socket %s\n" bind) ;;;
    net_listen "tcp" bind
  else
    ret (inr (errorString ("error while parsing bind arg " +:+ bind))).

(** The block of [Serve] reached when the accept loop has returned [err]. *)
Definition Serve_return (err : option error) : M World (option error) :=
  let* c := gets closing in
  if bool_decide (err = None) || (c =? 1)
  then wg_Wait ;;; ret None
  else ret err.

(** [Serve] up to the return of the accept loop: the goroutine is
    started, the callback installed, and the engine runs. *)
Definition Serve_run (l : Listener) (eng : Engine) : M World unit :=
  (* var closing int32; originalConnState := s.Server.ConnState *)
  let* hook := gets (fun w => ServerConnState (server w)) in
  modify (set_frame hook) ;;;
  (* go func() { s.shutdown <- true; ... }() *)
  let* ch := gets (fun w => shutdown (server w)) in
  match ch with
  | ChanClosed => panic               (* send on closed channel *)
  | _ => modify (set_server (set_shutdown (ChanSending true)))
  end ;;;
  let* addr := gets (fun w => Addr (server w)) in
  (if isUnixNetwork addr
   then emit (EChmod addr) ;;; emit (EFcgiServe l)
   else emit (EHttpServe l)) ;;;
  runEngine (events eng).

Definition Serve (l : Listener) (eng : Engine) : M World (option error) :=
  Serve_run l eng ;;;
  Serve_return (result eng).

(** The address [ListenAndServe] binds: [s.Addr], or ":http" when that
    is empty. *)
Definition bindAddress (a : string) : string :=
  if bool_decide (a = "") then ":http" else a.

Definition ListenAndServe (eng : Engine) : M World (option error) :=
  let* a := gets (fun w => Addr (server w)) in
  let addr := bindAddress a in
  let* r := listen addr in
  match r with
  | inr err => ret (Some err)
  | inl l => Serve l eng
  end.

(** The world of a process that has built the server [s] and has not yet
    called [Serve]. *)
Definition initWorld (s : GracefulServer)
    (stat remove : string -> option error)
    (netListen : string -> string -> option error) : World :=
  {| server := s; closing := 0; originalConnState := false;
     os_Stat := stat; os_Remove := remove; net_Listen := netListen;
     effects := [] |}.

(** A server on ":8080" whose [Serve] has started its goroutine. *)
Definition servingWorld : World :=
  set_server (set_shutdown (ChanSending true))
    (initWorld (NewWithServer ":8080" true) noSuchFile removeOk listenOk).

(** The entry the map holds for a connection in state [o]. *)
Definition tracked (o : option ConnState) : option ConnState :=
  match o with
  | Some st => if isTerminal st then None else Some st
  | None => None
  end.

End V2.

(** * Variant 1: the last state kept in the connection wrapper *)

Module V1.

(** [shutdown chan struct{}]: nothing is ever sent, it is only closed. *)
Inductive chan := ChanOpen | ChanClosed.

Record GracefulServer := mkServer {
  Addr : string;                          (* http.Server.Addr *)
  ServerConnState : bool;                 (* http.Server.ConnState set by the host *)
  shutdown : chan;
  wg : Z;                                 (* the sync.WaitGroup counter *)
  listener : option Listener;             (* nil until a listener is known *)
  stateHandler : bool;                    (* stateHandler != nil *)
}.

(** [lastHTTPState] is the field of the wrapper each accepted connection
    carries (reached through [conn.LocalAddr()]); a wrapper that was never
    written holds the zero value. *)
Record World := mkWorld {
  server : GracefulServer;
  closing : Z;                            (* var closing int32 *)
  orgConnState : bool;                    (* orgConnState != nil *)
  waiting : bool;                         (* the goroutine of Serve sits in <-s.shutdown *)
  lastHTTPState : gmap Conn ConnState;
  net_Listen : string -> string -> option error;
  effects : list Effect;
}.

Definition NewWithServer (addr : string) (hook : bool) : GracefulServer :=
  {| Addr := addr; ServerConnState := hook; shutdown := ChanOpen; wg := 0;
     listener := None; stateHandler := false |}.

(** [NewWithOptions]: a listener that is not graceful is wrapped. *)
Definition NewWithOptions (addr : string) (hook : bool) (handler : bool)
    (l : option Listener) : GracefulServer :=
  {| Addr := addr; ServerConnState := hook; shutdown := ChanOpen; wg := 0;
     listener :=
       match l with
       | Some (GracefulListener g) => Some (GracefulListener g)
       | Some other => Some (GracefulListener other)
       | None => None
       end;
     stateHandler := handler |}.

Definition set_server (f : GracefulServer -> GracefulServer) (w : World) : World :=
  {| server := f (server w); closing := closing w;
     orgConnState := orgConnState w; waiting := waiting w;
     lastHTTPState := lastHTTPState w;
     net_Listen := net_Listen w; effects := effects w |}.

Definition set_wg (v : Z) (s : GracefulServer) : GracefulServer :=
  {| Addr := Addr s; ServerConnState := ServerConnState s; shutdown := shutdown s;
     wg := v; listener := listener s; stateHandler := stateHandler s |}.

Definition set_shutdown (c : chan) (s : GracefulServer) : GracefulServer :=
  {| Addr := Addr s; ServerConnState := ServerConnState s; shutdown := c;
     wg := wg s; listener := listener s; stateHandler := stateHandler s |}.

Definition set_listener (l : Listener) (s : GracefulServer) : GracefulServer :=
  {| Addr := Addr s; ServerConnState := ServerConnState s; shutdown := shutdown s;
     wg := wg s; listener := Some l; stateHandler := stateHandler s |}.

Definition set_closing (v : Z) (w : World) : World :=
  {| server := server w; closing := v;
     orgConnState := orgConnState w; waiting := waiting w;
     lastHTTPState := lastHTTPState w;
     net_Listen := net_Listen w; effects := effects w |}.

Definition set_waiting (b : bool) (w : World) : World :=
  {| server := server w; closing := closing w;
     orgConnState := orgConnState w; waiting := b;
     lastHTTPState := lastHTTPState w;
     net_Listen := net_Listen w; effects := effects w |}.

Definition set_frame (orig : bool) (w : World) : World :=
  {| server := server w; closing := 0;
     orgConnState := orig; waiting := waiting w;
     lastHTTPState := lastHTTPState w;
     net_Listen := net_Listen w; effects := effects w |}.

Definition set_lastHTTPState (conn : Conn) (st : ConnState) (w : World) : World :=
  {| server := server w; closing := closing w;
     orgConnState := orgConnState w; waiting := waiting w;
     lastHTTPState := <[conn := st]> (lastHTTPState w);
     net_Listen := net_Listen w; effects := effects w |}.

Definition emit (e : Effect) : M World unit :=
  modify (fun w =>
    {| server := server w; closing := closing w;
       orgConnState := orgConnState w; waiting := waiting w;
       lastHTTPState := lastHTTPState w;
       net_Listen := net_Listen w; effects := effects w ++ [e] |}).

(** sync.WaitGroup *)
Definition wg_Add (delta : Z) : M World unit :=
  fun w =>
    let v := wg (server w) + delta in
    let w' := set_server (set_wg v) w in
    if v <? 0 then (Panic, w') else (Ret tt, w').

Definition wg_Done : M World unit := wg_Add (-1).

Definition wg_Wait : M World unit :=
  fun w => if wg (server w) =? 0 then (Ret tt, w) else (Block, w).

Definition StartRoutine : M World unit := wg_Add 1.
Definition FinishRoutine : M World unit := wg_Done.

(** The goroutine of [Serve], once its receive from [shutdown] completes. *)
Definition shutdownRoutine : M World unit :=
  modify (set_waiting false) ;;;
  modify (set_closing 1) ;;;
  emit (ESetKeepAlivesEnabled false) ;;;
  emit EListenerClose.

(** [Close]: [close(s.shutdown)]; closing a closed channel panics. *)
Definition Close : M World unit :=
  let* ch := gets (fun w => shutdown (server w)) in
  match ch with
  | ChanClosed => panic
  | ChanOpen =>
      modify (set_server (set_shutdown ChanClosed)) ;;;
      let* g := gets waiting in
      when g shutdownRoutine
  end.

(** [gconn.lastHTTPState] of the wrapper of [conn]. *)
Definition lastOf (w : World) (conn : Conn) : ConnState :=
  default StateNew (lastHTTPState w !! conn).

(** The closure [Serve] installs as [s.ConnState]. *)
Definition connState (conn : Conn) (newState : ConnState) : M World unit :=
  let* last := gets (fun w => lastOf w conn) in
  match newState with
  | StateNew => StartRoutine
  | StateActive =>
      when (bool_decide (last = StateIdle)) StartRoutine
  | StateIdle =>
      (let* c := gets closing in when (c =? 1) (emit (EConnClose conn))) ;;;
      FinishRoutine
  | StateClosed | StateHijacked =>
      when (bool_decide (last <> StateIdle)) FinishRoutine
  end ;;;
  (let* h := gets (fun w => stateHandler (server w)) in
   when h (emit (EStateHandler conn last newState))) ;;;
  modify (set_lastHTTPState conn newState) ;;;
  let* orig := gets orgConnState in
  when orig (emit (EConnState conn newState)).

Definition step (ev : Event) : M World unit :=
  match ev with
  | Notify conn newState => connState conn newState
  | CallClose => Close
  end.

Definition runEngine : list Event -> M World unit := runEvents step.

(** What the notifications of connection [c] add to the counter. *)
Definition netEffect (c : Conn) (evs : list Event) (w : World) : Z :=
  netEffectOf step (fun w => wg (server w)) c evs w.

Definition isUnixNetwork (addr : string) : bool := strings_HasPrefix addr "/".

Definition chooseNetwork (addr : string) : string :=
  if isUnixNetwork addr then "unix" else "tcp".

Definition net_listen (network addr : string) : M World (Listener + error) :=
  emit (ENetListen network addr) ;;;
  let* r := gets (fun w => net_Listen w network addr) in
  match r with
  | Some err => ret (inr err)
  | None =>
      ret (inl (if bool_decide (network = "unix")
                then UnixListener addr else TCPListener addr))
  end.

(** The block of [Serve] reached when the accept loop has returned [err]. *)
Definition Serve_return (err : option error) : M World (option error) :=
  match err with
  | None => wg_Wait ;;; ret None
  | Some listenerAlreadyClosed => wg_Wait ;;; ret None
  | Some e => ret (Some e)
  end.

(** [Serve] up to the return of the accept loop. *)
Definition Serve_run (l : Listener) (eng : Engine) : M World unit :=
  let gracefulListener :=
    match l with GracefulListener _ => l | _ => GracefulListener l end in
  modify (set_server (set_listener gracefulListener)) ;;;
  (* var closing int32 *)
  let* hook := gets (fun w => ServerConnState (server w)) in
  modify (set_frame hook) ;;;
  (* go func() { <-s.shutdown; ... }() *)
  let* ch := gets (fun w => shutdown (server w)) in
  match ch with
  | ChanClosed => shutdownRoutine
  | ChanOpen => modify (set_waiting true)
  end ;;;
  let* addr := gets (fun w => Addr (server w)) in
  (if isUnixNetwork addr
   then emit (EChmod addr) ;;; emit (EFcgiServe gracefulListener)
   else emit (EHttpServe gracefulListener)) ;;;
  runEngine (events eng).

Definition Serve (l : Listener) (eng : Engine) : M World (option error) :=
  Serve_run l eng ;;;
  Serve_return (result eng).

Definition ListenAndServe (eng : Engine) : M World (option error) :=
  let* cur := gets (fun w => listener (server w)) in
  match cur with
  | Some l => Serve l eng
  | None =>
      let* a := gets (fun w => Addr (server w)) in
      let* r := net_listen (chooseNetwork a) a in
      match r with
      | inr err => ret (Some err)
      | inl (TCPListener t) =>
          let l := GracefulListener (TCPListener t) in
          modify (set_server (set_listener l)) ;;;
          Serve l eng
      | inl _ => panic   (* the type assertion to a TCP listener fails *)
      end
  end.

Definition initWorld (s : GracefulServer)
    (netListen : string -> string -> option error) : World :=
  {| server := s; closing := 0; orgConnState := false; waiting := false;
     lastHTTPState := ∅; net_Listen := netListen; effects := [] |}.

(** A server built with a state handler and a ConnState hook, serving a
    connection that is active when [Close] is called. *)
Definition observedWorld : World :=
  (Serve_run (TCPListener ":8080")
     (mkEngine [Notify 1 StateNew; Notify 1 StateActive; CallClose] None)
     (initWorld (NewWithOptions ":8080" true true None) listenOk)).2.

End V1.

(** * Further code of variant 2 *)

Module V2x.
Import V2.


(** The world with further calls recorded. *)
Definition record (es : list Effect) (w : World) : World :=
  {| server := server w; closing := closing w;
     originalConnState := originalConnState w;
     os_Stat := os_Stat w; os_Remove := os_Remove w;
     net_Listen := net_Listen w; effects := effects w ++ es |}.

(** The world in which the engine starts: [Serve] has started its
    goroutine, installed the callback and called the accept loop. *)
Definition started (l : Listener) (w : World) : World :=
  (Serve_run l (mkEngine [] None) w).2.

(** The goroutine of [Serve] is there, or has done its work. *)
Definition armed (w : World) : Prop :=
  (exists v, shutdown (server w) = ChanSending v) \/
  (shutdown (server w) = ChanClosed /\ closing w = 1).

End V2x.

(** * Further code of variant 1 *)

Module V1x.
Import V1.

(** The world in which the engine starts. *)
Definition started (l : Listener) (w : World) : World :=
  (Serve_run l (mkEngine [] None) w).2.

End V1x.

(** * The process-wide registry of variant 1 *)

Module Registry.

(** [var servers []*GracefulServer] and [var m sync.Mutex].  A pointer to
    a server is its index in [heap], which holds every server built so
    far together with the world of its [Serve]. *)
Record Process := mkProcess {
  heap : list V1.World;
  servers : list nat;
  m_locked : bool;
  net : string -> string -> option error;
}.

Definition set_heap (h : list V1.World) (p : Process) : Process :=
  {| heap := h; servers := servers p; m_locked := m_locked p; net := net p |}.

Definition set_servers (l : list nat) (p : Process) : Process :=
  {| heap := heap p; servers := l; m_locked := m_locked p; net := net p |}.

Definition set_locked (b : bool) (p : Process) : Process :=
  {| heap := heap p; servers := servers p; m_locked := b; net := net p |}.

(** [m.Lock()] waits while the mutex is held. *)
Definition Lock : M Process unit :=
  fun p => if m_locked p then (Block, p) else (Ret tt, set_locked true p).

Definition Unlock : M Process unit := modify (set_locked false).

(** A method call on the server behind pointer [i]. *)
Definition onServer {A} (i : nat) (m : M V1.World A) : M Process A :=
  fun p =>
    match heap p !! i with
    | Some w => let '(r, w') := m w in (r, set_heap (<[i := w']> (heap p)) p)
    | None => (Panic, p)                  (* nil pointer *)
    end.

(** [NewWithServer(&http.Server{Addr: addr, Handler: handler})] followed
    by the registration under the lock: the first lines of the package
    functions [ListenAndServe], [ListenAndServeFCGI], [ListenAndServeTLS]
    and [Serve]. *)
Definition register (addr : string) : M Process nat :=
  let* i := gets (fun p => length (heap p)) in
  let* netListen := gets net in
  modify (fun p =>
    set_heap (heap p ++ [V1.initWorld (V1.NewWithServer addr false) netListen])
      p) ;;;
  Lock ;;;
  modify (fun p => set_servers (servers p ++ [i]) p) ;;;
  Unlock ;;;
  ret i.

Definition ListenAndServe (addr : string) (eng : Engine)
  : M Process (option error) :=
  let* i := register addr in
  onServer i (V1.ListenAndServe eng).

Definition ListenAndServeFCGI (addr : string) (eng : Engine)
  : M Process (option error) :=
  let* i := register addr in
  onServer i (V1.ListenAndServe eng).

Definition Serve (l : Listener) (eng : Engine) : M Process (option error) :=
  let* i := register "" in
  onServer i (V1.Serve l eng).

(** [for _, s := range servers { s.Close() }] *)
Fixpoint closeEach (l : list nat) : M Process unit :=
  match l with
  | [] => ret tt
  | i :: l' => onServer i V1.Close ;;; closeEach l'
  end.

(** The package function [Close]. *)
Definition Close : M Process unit :=
  Lock ;;;
  (let* l := gets servers in closeEach l) ;;;
  modify (set_servers []) ;;;
  Unlock.

(** The channel of the server behind pointer [i]. *)
Definition shutdownOf (p : Process) (i : nat) : option V1.chan :=
  (fun w => V1.shutdown (V1.server w)) <$> heap p !! i.

(** A process that has built nothing yet. *)
Definition emptyProcess : Process :=
  {| heap := []; servers := []; m_locked := false; net := listenOk |}.

(** A process that has registered two servers. *)
Definition twoServers : Process :=
  ((register ":8080" ;;; register ":8081") emptyProcess).2.

End Registry.

(** * Facts about the order of notifications *)

Section Order.

Implicit Types (c : Conn) (st : ConnState) (evs : list Event)
  (prev : option ConnState) (l : list ConnState).

Lemma proj_app c evs1 evs2 : proj c (evs1 ++ evs2) = proj c evs1 ++ proj c evs2.
Proof.
  induction evs1 as [|[c' st|] evs1 IH]; simpl; auto.
  case_bool_decide; simpl; congruence.
Qed.

Lemma connsOf_app evs1 evs2 : connsOf (evs1 ++ evs2) = connsOf evs1 ++ connsOf evs2.
Proof.
  induction evs1 as [|[c' st|] evs1 IH]; simpl; congruence.
Qed.

Lemma proj_absent c evs : c ∉ connsOf evs -> proj c evs = [].
Proof.
  induction evs as [|[c' st|] evs IH]; simpl; auto.
  intros Hnin. apply not_elem_of_cons in Hnin as [Hne Hnin].
  rewrite bool_decide_eq_false_2 by congruence. auto.
Qed.

Lemma proj_present c evs : proj c evs <> [] -> c ∈ connsOf evs.
Proof.
  intros Hne. destruct (decide (c ∈ connsOf evs)) as [|Hnin]; [done|].
  by apply proj_absent in Hnin.
Qed.

Lemma lastOr_last prev l :
  lastOr prev l = match last l with Some st => Some st | None => prev end.
Proof.
  revert prev. induction l as [|st l IH]; intros prev; [done|].
  unfold lastOr in *. simpl fold_left. rewrite IH.
  destruct l as [|st' l]; [done|]. rewrite last_cons_cons.
  destruct (last (st' :: l)) eqn:E; [done|]. by apply last_None in E.
Qed.

Lemma lastOr_snoc prev l st : lastOr prev (l ++ [st]) = Some st.
Proof. unfold lastOr. by rewrite fold_left_app. Qed.

Lemma lifecycleFrom_app prev l1 l2 :
  lifecycleFrom prev (l1 ++ l2) =
  lifecycleFrom prev l1 && lifecycleFrom (lastOr prev l1) l2.
Proof.
  revert prev. induction l1 as [|st l1 IH]; intros prev; simpl; [done|].
  rewrite IH. unfold lastOr. simpl. by rewrite andb_assoc.
Qed.

Lemma ordered_spec evs :
  ordered evs = true <-> forall c, lifecycleFrom None (proj c evs) = true.
Proof.
  unfold ordered. rewrite forallb_forall. split.
  - intros H c. destruct (decide (c ∈ connsOf evs)) as [Hin|Hnin].
    + apply H. by apply list_elem_of_In.
    + by rewrite proj_absent.
  - intros H c _. apply H.
Qed.

Lemma current_snoc_same evs c st : current (evs ++ [Notify c st]) c = Some st.
Proof.
  unfold current. rewrite proj_app. simpl.
  rewrite bool_decide_eq_true_2 by done. apply last_snoc.
Qed.

Lemma current_snoc_other evs c c' st :
  c <> c' -> current (evs ++ [Notify c st]) c' = current evs c'.
Proof.
  intros Hne. unfold current. rewrite proj_app. simpl.
  rewrite bool_decide_eq_false_2 by done. by rewrite app_nil_r.
Qed.

Lemma current_snoc_close evs c : current (evs ++ [CallClose]) c = current evs c.
Proof. unfold current. rewrite proj_app. simpl. by rewrite app_nil_r. Qed.

(** In an ordered run every prefix is ordered, and the last notification
    is allowed from the state its connection was in. *)
Lemma ordered_snoc evs ev :
  ordered (evs ++ [ev]) = true ->
  ordered evs = true /\
  forall c st, ev = Notify c st -> allowed (current evs c) st = true.
Proof.
  rewrite !ordered_spec. intros H. split.
  - intros c. specialize (H c). rewrite proj_app, lifecycleFrom_app in H.
    by apply andb_true_iff in H as [? _].
  - intros c st ->. specialize (H c).
    rewrite proj_app, lifecycleFrom_app in H. simpl in H.
    rewrite bool_decide_eq_true_2 in H by done. simpl in H.
    apply andb_true_iff in H as [_ H]. rewrite andb_true_r in H.
    rewrite lastOr_last in H. unfold current.
    by destruct (last (proj c evs)).
Qed.

Lemma elem_of_inFlight evs c : c ∈ inFlight evs <-> busy (current evs c) = true.
Proof.
  unfold inFlight. rewrite elem_of_filter, elem_of_list_to_set. split.
  - by intros [? _].
  - intros Hb. split; [done|]. apply proj_present. unfold current in Hb.
    intros Hnil. by rewrite Hnil in Hb.
Qed.

Lemma inFlight_snoc_close evs : inFlight (evs ++ [CallClose]) = inFlight evs.
Proof.
  apply set_eq. intros c. by rewrite !elem_of_inFlight, current_snoc_close.
Qed.

Lemma inFlight_snoc_notify evs c st :
  inFlight (evs ++ [Notify c st]) =
  if busy (Some st) then {[c]} ∪ inFlight evs else inFlight evs ∖ {[c]}.
Proof.
  apply set_eq. intros x. rewrite elem_of_inFlight.
  destruct (decide (c = x)) as [<-|Hne].
  - rewrite current_snoc_same. destruct (busy (Some st)); set_solver.
  - rewrite current_snoc_other by done. rewrite <- elem_of_inFlight.
    destruct (busy (Some st)); set_solver.
Qed.

(** A notification changes the number of busy connections by the weight
    of the new state minus the weight of the state it replaces. *)
Lemma size_inFlight_snoc evs c st :
  Z.of_nat (size (inFlight (evs ++ [Notify c st]))) =
  Z.of_nat (size (inFlight evs)) + (weight (Some st) - weight (current evs c)).
Proof.
  rewrite inFlight_snoc_notify. unfold weight.
  destruct (busy (current evs c)) eqn:Hcur.
  - apply elem_of_inFlight in Hcur. destruct (busy (Some st)).
    + replace ({[c]} ∪ inFlight evs) with (inFlight evs) by set_solver. lia.
    + rewrite size_difference by set_solver. rewrite size_singleton.
      assert (0 < size (inFlight evs))%nat; [|lia].
      assert ({[c]} ⊆ inFlight evs) as Hle by set_solver.
      apply subseteq_size in Hle. rewrite size_singleton in Hle. lia.
  - assert (c ∉ inFlight evs) as Hnin.
    { rewrite elem_of_inFlight. congruence. }
    destruct (busy (Some st)).
    + rewrite size_union by set_solver. rewrite size_singleton. lia.
    + replace (inFlight evs ∖ {[c]}) with (inFlight evs) by set_solver. lia.
Qed.

Lemma size_inFlight_pos evs c :
  busy (current evs c) = true -> 0 < Z.of_nat (size (inFlight evs)).
Proof.
  intros Hb. apply elem_of_inFlight in Hb.
  assert (size (inFlight evs) <> 0)%nat; [|lia].
  apply size_non_empty_iff. set_solver.
Qed.

Lemma inFlight_empty_iff evs :
  Z.of_nat (size (inFlight evs)) = 0 <-> forall c, busy (current evs c) = false.
Proof.
  split.
  - intros Hz c. destruct (busy (current evs c)) eqn:Hb; [|done].
    apply size_inFlight_pos in Hb. lia.
  - intros Hall. assert (inFlight evs = ∅) as ->.
    { apply set_eq. intros c. rewrite elem_of_inFlight, Hall. set_solver. }
    by rewrite size_empty.
Qed.

(** The switch follows the weights on every allowed transition, when the
    state it reads is the one the connection was last reported in. *)
Lemma switchEffect_allowed prev st lastv :
  allowed prev st = true ->
  (forall p, prev = Some p -> lastv = p) ->
  switchEffect lastv st = weight (Some st) - weight prev.
Proof.
  intros Hal Hlast. destruct prev as [p|].
  - rewrite (Hlast p eq_refl). by destruct p, st.
  - by destruct st.
Qed.

Lemma allowed_nonterminal prev st p :
  allowed prev st = true -> prev = Some p -> isTerminal p = false.
Proof. intros Hal ->. by destruct p, st. Qed.

End Order.

(** * The counter along a run, for any callback that follows the switch *)

Lemma runEvents_app {W} (step : Event -> M W unit) evs1 evs2 w :
  runEvents step (evs1 ++ evs2) w =
  (runEvents step evs1 ;;; runEvents step evs2) w.
Proof.
  revert w. induction evs1 as [|ev evs1 IH]; intros w; simpl.
  - reflexivity.
  - unfold bind in *. destruct (step ev w) as [[[]| |] w1]; auto.
Qed.

Lemma runEvents_cons_Ret {W} (step : Event -> M W unit) ev evs w w' :
  runEvents step (ev :: evs) w = (Ret tt, w') ->
  exists w1, step ev w = (Ret tt, w1) /\ runEvents step evs w1 = (Ret tt, w').
Proof.
  simpl. unfold bind. destruct (step ev w) as [[[]| |] w1]; try discriminate.
  eauto.
Qed.

Lemma hasClose_app evs1 evs2 :
  hasClose (evs1 ++ evs2) = hasClose evs1 || hasClose evs2.
Proof. induction evs1 as [|[c st|] evs1 IH]; simpl; auto. Qed.

Section Tracker.

Context {W : Type}.
Variable step : Event -> M W unit.
Variable counter : W -> Z.
(** The state the callback reads for a connection. *)
Variable lastOf : W -> Conn -> ConnState.
(** The worlds in which a call of [Close] returns. *)
Variable canClose : W -> Prop.

Hypothesis step_counter : forall c st w,
  counter (step (Notify c st) w).2 = counter w + switchEffect (lastOf w c) st.
Hypothesis step_result : forall c st w,
  (step (Notify c st) w).1 =
    if bool_decide (switchEffect (lastOf w c) st <> 0) &&
       (counter w + switchEffect (lastOf w c) st <? 0)
    then Panic else Ret tt.
Hypothesis step_last_same : forall c st w,
  (step (Notify c st) w).1 = Ret tt -> isTerminal st = false ->
  lastOf (step (Notify c st) w).2 c = st.
Hypothesis step_last_other : forall c c' st w,
  c <> c' -> (step (Notify c st) w).1 = Ret tt ->
  lastOf (step (Notify c st) w).2 c' = lastOf w c'.
Hypothesis step_canClose : forall c st w,
  canClose w -> canClose (step (Notify c st) w).2.
Hypothesis close_counter : forall w,
  counter (step CallClose w).2 = counter w.
Hypothesis close_last : forall w c,
  lastOf (step CallClose w).2 c = lastOf w c.
Hypothesis close_result : forall w,
  canClose w -> (step CallClose w).1 = Ret tt /\ canClose (step CallClose w).2.

(** The counter is the number of busy connections after every ordered
    run that starts with the counter at zero, and such a run neither
    panics nor blocks. *)
Lemma tracker_run_ordered evs w :
  counter w = 0 ->
  ordered evs = true ->
  (hasClose evs = true -> canClose w) ->
  exists w',
    runEvents step evs w = (Ret tt, w') /\
    counter w' = Z.of_nat (size (inFlight evs)) /\
    (forall c p, current evs c = Some p -> isTerminal p = false ->
                 lastOf w' c = p) /\
    (canClose w -> canClose w').
Proof.
  intros Hzero. induction evs as [|ev evs IH] using rev_ind; intros Hord Hcl.
  - exists w. repeat split; auto. intros c p Hcur. discriminate.
  - apply ordered_snoc in Hord as [Hord Hal].
    rewrite hasClose_app in Hcl.
    destruct IH as (w1 & Hrun & Hcnt & Hlast & Hcan); auto.
    { intros H. apply Hcl. by rewrite H. }
    rewrite runEvents_app. unfold bind at 1. rewrite Hrun. simpl.
    unfold bind, ret. destruct ev as [c st|].
    + specialize (Hal c st eq_refl).
      assert (switchEffect (lastOf w1 c) st
              = weight (Some st) - weight (current evs c)) as Hsw.
      { apply switchEffect_allowed; [done|]. intros p Hp.
        apply Hlast; [done|]. by eapply allowed_nonterminal. }
      pose proof (step_counter c st w1) as Hc.
      pose proof (step_result c st w1) as Hr.
      pose proof (size_inFlight_snoc evs c st) as Hsz.
      rewrite Hsw in Hc, Hr.
      assert ((step (Notify c st) w1).1 = Ret tt) as Hret.
      { rewrite Hr. destruct (_ <? _) eqn:Hlt; [|by rewrite andb_false_r].
        apply Z.ltb_lt in Hlt. lia. }
      clear Hr.
      destruct (step (Notify c st) w1) as [r w2] eqn:Hstep. simpl in *.
      subst r. simpl. exists w2. split; [done|]. split; [lia|]. split.
      * intros c' p Hcur Hterm. destruct (decide (c = c')) as [<-|Hne].
        -- rewrite current_snoc_same in Hcur. injection Hcur as <-.
           pose proof (step_last_same c st w1) as Hs.
           rewrite Hstep in Hs. by apply Hs.
        -- rewrite current_snoc_other in Hcur by done.
           pose proof (step_last_other c c' st w1 Hne) as Hs.
           rewrite Hstep in Hs. simpl in Hs. rewrite Hs by done. auto.
      * intros Hw. pose proof (step_canClose c st w1 (Hcan Hw)) as Hs.
        by rewrite Hstep in Hs.
    + assert (canClose w) as Hw.
      { apply Hcl. simpl. by rewrite orb_true_r. }
      destruct (close_result w1 (Hcan Hw)) as [Hr Hcan2].
      pose proof (close_counter w1) as Hc.
      pose proof (close_last w1) as Hl.
      destruct (step CallClose w1) as [r w2] eqn:Hstep. simpl in *.
      subst r. simpl. exists w2. split; [done|].
      rewrite inFlight_snoc_close. split; [lia|]. split; [|done].
      intros c p Hcur Hterm. rewrite current_snoc_close in Hcur.
      rewrite Hl. auto.
Qed.

(** The notifications of one connection, reported in order from the state
    [prev], add the weight of its final state minus the weight of [prev],
    whatever the other connections do. *)
Lemma tracker_netEffect_lifecycle c evs : forall w w' prev,
  runEvents step evs w = (Ret tt, w') ->
  lifecycleFrom prev (proj c evs) = true ->
  (forall p, prev = Some p -> isTerminal p = false -> lastOf w c = p) ->
  netEffectOf step counter c evs w
  = weight (lastOr prev (proj c evs)) - weight prev.
Proof.
  induction evs as [|ev evs IH]; intros w w' prev Hrun Hlc Hlast.
  - simpl. unfold lastOr. simpl. lia.
  - apply runEvents_cons_Ret in Hrun as (w1 & Hstep & Hrun).
    cbn [netEffectOf]. rewrite Hstep. destruct ev as [c' st|].
    + simpl in Hlc. simpl proj. destruct (decide (c' = c)) as [->|Hne].
      * rewrite bool_decide_eq_true_2 in Hlc |- * by done.
        rewrite (bool_decide_eq_true_2 (concerns c (Notify c st))) by done.
        simpl in Hlc. apply andb_true_iff in Hlc as [Hal Hlc].
        pose proof (step_counter c st w) as Hc. rewrite Hstep in Hc.
        simpl in Hc.
        rewrite (switchEffect_allowed prev st (lastOf w c)) in Hc; auto.
        2:{ intros p Hp. apply Hlast; [done|]. by eapply allowed_nonterminal. }
        rewrite (IH w1 w' (Some st) Hrun Hlc).
        -- unfold lastOr. simpl. lia.
        -- intros p [= <-] Hterm. pose proof (step_last_same c st w) as Hs.
           rewrite Hstep in Hs. by apply Hs.
      * rewrite bool_decide_eq_false_2 in Hlc |- * by done.
        rewrite (bool_decide_eq_false_2 (concerns c (Notify c' st))) by done.
        rewrite (IH w1 w' prev Hrun Hlc); [lia|].
        intros p Hp Hterm. pose proof (step_last_other c' c st w Hne) as Hs.
        rewrite Hstep in Hs. simpl in Hs. rewrite Hs by done. auto.
    + simpl in Hlc. simpl proj.
      rewrite (bool_decide_eq_false_2 (concerns c CallClose)) by (simpl; tauto).
      rewrite (IH w1 w' prev Hrun Hlc); [lia|].
      intros p Hp Hterm. pose proof (close_last w c) as Hs.
      rewrite Hstep in Hs. simpl in Hs. rewrite Hs. auto.
Qed.

(** Over a whole lifetime the increments and decrements cancel. *)
Lemma tracker_netEffect_wholeLifetime c evs w w' :
  runEvents step evs w = (Ret tt, w') ->
  wholeLifetime (proj c evs) = true ->
  netEffectOf step counter c evs w = 0.
Proof.
  intros Hrun Hwhole. apply andb_true_iff in Hwhole as [Hlc Hend].
  rewrite (tracker_netEffect_lifecycle c evs w w' None); auto; [|discriminate].
  rewrite lastOr_last. unfold weight.
  destruct (last (proj c evs)) as [[]|]; simpl in *; done.
Qed.

End Tracker.

(** * Variant 2: the callback *)

Ltac run_monad :=
  unfold bind, ret, gets, modify, when, panic, block in *; simpl in *.

Ltac split_ifs :=
  repeat first
    [ progress (simpl in * )
    | case_bool_decide
    | match goal with |- context [if ?b then _ else _] => destruct b eqn:? end ].

Module V2Facts.
Import V2.

Ltac open_callback :=
  unfold step, connState, lastOf, StartRoutine, FinishRoutine, wg_Done, wg_Add,
    emit, switchEffect, Close, shutdownRoutine, serving;
  run_monad.

Ltac callback_cases st :=
  open_callback; destruct st; split_ifs; try lia; try congruence; try done.

Lemma v2_connState_counter c st w :
  wg (server (connState c st w).2)
  = wg (server w) + switchEffect (lastOf w c) st.
Proof. callback_cases st. Qed.

Lemma v2_connState_result c st w :
  (connState c st w).1 =
    if bool_decide (switchEffect (lastOf w c) st <> 0) &&
       (wg (server w) + switchEffect (lastOf w c) st <? 0)
    then Panic else Ret tt.
Proof. callback_cases st. Qed.

Lemma v2_connState_map c st w :
  (connState c st w).1 = Ret tt ->
  lastConnState (server (connState c st w).2) =
    if isTerminal st then delete c (lastConnState (server w))
    else <[c := st]> (lastConnState (server w)).
Proof. callback_cases st. Qed.

Lemma v2_connState_shutdown c st w :
  shutdown (server (connState c st w).2) = shutdown (server w).
Proof. callback_cases st. Qed.

Lemma v2_connState_last_same c st w :
  (connState c st w).1 = Ret tt -> isTerminal st = false ->
  lastOf (connState c st w).2 c = st.
Proof.
  intros Hret Hterm. unfold lastOf at 1. rewrite v2_connState_map by done.
  rewrite Hterm. by rewrite lookup_insert_eq.
Qed.

Lemma v2_connState_last_other c c' st w :
  c <> c' -> (connState c st w).1 = Ret tt ->
  lastOf (connState c st w).2 c' = lastOf w c'.
Proof.
  intros Hne Hret. unfold lastOf. rewrite v2_connState_map by done.
  destruct (isTerminal st).
  - by rewrite lookup_delete_ne.
  - by rewrite lookup_insert_ne.
Qed.

Lemma v2_Close_counter w : wg (server (step CallClose w).2) = wg (server w).
Proof. open_callback. destruct (shutdown (server w)); done. Qed.

Lemma v2_Close_map w :
  lastConnState (server (step CallClose w).2) = lastConnState (server w).
Proof. open_callback. destruct (shutdown (server w)); done. Qed.

Lemma v2_Close_serving w :
  serving w ->
  (step CallClose w).1 = Ret tt /\ serving (step CallClose w).2.
Proof.
  open_callback. destruct (shutdown (server w)) eqn:E; simpl; intros Hs;
    split; try done; congruence.
Qed.

End V2Facts.

(** * Variant 1: the callback *)

Module V1Facts.
Import V1.

Ltac open_callback :=
  unfold step, connState, lastOf, StartRoutine, FinishRoutine, wg_Done, wg_Add,
    emit, switchEffect, Close, shutdownRoutine;
  run_monad.

Ltac callback_cases st :=
  open_callback; destruct st; split_ifs; try lia; try congruence; try done.

Lemma v1_connState_counter c st w :
  wg (server (connState c st w).2)
  = wg (server w) + switchEffect (lastOf w c) st.
Proof. callback_cases st. Qed.

Lemma v1_connState_result c st w :
  (connState c st w).1 =
    if bool_decide (switchEffect (lastOf w c) st <> 0) &&
       (wg (server w) + switchEffect (lastOf w c) st <? 0)
    then Panic else Ret tt.
Proof. callback_cases st. Qed.

Lemma v1_connState_store c st w :
  (connState c st w).1 = Ret tt ->
  lastHTTPState (connState c st w).2 = <[c := st]> (lastHTTPState w).
Proof. callback_cases st. Qed.

Lemma v1_connState_last_same c st w :
  (connState c st w).1 = Ret tt -> lastOf (connState c st w).2 c = st.
Proof.
  intros Hret. unfold lastOf at 1. rewrite v1_connState_store by done.
  by rewrite lookup_insert_eq.
Qed.

Lemma v1_connState_last_other c c' st w :
  c <> c' -> (connState c st w).1 = Ret tt ->
  lastOf (connState c st w).2 c' = lastOf w c'.
Proof.
  intros Hne Hret. unfold lastOf. rewrite v1_connState_store by done.
  by rewrite lookup_insert_ne.
Qed.

Lemma v1_Close_counter w : wg (server (step CallClose w).2) = wg (server w).
Proof.
  open_callback. destruct (shutdown (server w)); [|done].
  simpl. by destruct (waiting w).
Qed.

Lemma v1_Close_store w : lastHTTPState (step CallClose w).2 = lastHTTPState w.
Proof.
  open_callback. destruct (shutdown (server w)); [|done].
  simpl. by destruct (waiting w).
Qed.

(** Runs of notifications alone, in order, neither panic nor block. *)
Lemma v1_runEngine_ordered evs w :
  wg (server w) = 0 -> ordered evs = true -> hasClose evs = false ->
  exists w',
    runEngine evs w = (Ret tt, w') /\
    wg (server w') = Z.of_nat (size (inFlight evs)).
Proof.
  intros Hz Hord Hnc.
  destruct (tracker_run_ordered step (fun w => wg (server w)) lastOf (fun _ => False))
    with (evs := evs) (w := w) as (w' & Hrun & Hcnt & _); auto.
  - apply v1_connState_counter.
  - apply v1_connState_result.
  - intros c st w0 Hret _. by apply v1_connState_last_same.
  - apply v1_connState_last_other.
  - apply v1_Close_counter.
  - intros w0 c. unfold lastOf. by rewrite v1_Close_store.
  - done.
  - congruence.
  - eauto.
Qed.

Lemma v1_netEffect_wholeLifetime c evs w w' :
  runEngine evs w = (Ret tt, w') ->
  wholeLifetime (proj c evs) = true ->
  netEffect c evs w = 0.
Proof.
  apply (tracker_netEffect_wholeLifetime step (fun w => wg (server w)) lastOf).
  - apply v1_connState_counter.
  - intros c0 st w0 Hret _. by apply v1_connState_last_same.
  - apply v1_connState_last_other.
  - intros w0 c0. unfold lastOf. by rewrite v1_Close_store.
Qed.

End V1Facts.

Module V2Runs.
Import V2 V2Facts.

Lemma v2_runEngine_ordered evs w :
  wg (server w) = 0 -> ordered evs = true ->
  (hasClose evs = true -> serving w) ->
  exists w',
    runEngine evs w = (Ret tt, w') /\
    wg (server w') = Z.of_nat (size (inFlight evs)) /\
    (forall c p, current evs c = Some p -> isTerminal p = false ->
                 lastOf w' c = p).
Proof.
  intros Hz Hord Hcl.
  destruct (tracker_run_ordered step (fun w => wg (server w)) lastOf serving)
    with (evs := evs) (w := w) as (w' & Hrun & Hcnt & Hlast & _); eauto.
  - apply v2_connState_counter.
  - apply v2_connState_result.
  - apply v2_connState_last_same.
  - apply v2_connState_last_other.
  - intros c st w0. unfold serving, step. by rewrite v2_connState_shutdown.
  - apply v2_Close_counter.
  - intros w0 c. unfold lastOf. by rewrite v2_Close_map.
  - apply v2_Close_serving.
Qed.

Lemma v2_netEffect_wholeLifetime c evs w w' :
  runEngine evs w = (Ret tt, w') ->
  wholeLifetime (proj c evs) = true ->
  netEffect c evs w = 0.
Proof.
  apply (tracker_netEffect_wholeLifetime step (fun w => wg (server w)) lastOf).
  - apply v2_connState_counter.
  - apply v2_connState_last_same.
  - apply v2_connState_last_other.
  - intros w0 c0. unfold lastOf. by rewrite v2_Close_map.
Qed.

End V2Runs.

(** * The drain counter over the lifetime of connections *)

(** C1 (no double counting).  In both variants, for every run of the
    engine that the server survives, whatever world it starts from and
    whatever the other connections and [Close] calls do in between: when the
    notifications of a connection [c] form a whole lifetime (New, then
    Active and Idle in alternation, ended by Closed or Hijacked), the calls
    of the callback for [c] add exactly zero to the drain counter. *)
Theorem no_double_counting :
  (forall c evs w w',
      V1.runEngine evs w = (Ret tt, w') ->
      wholeLifetime (proj c evs) = true ->
      V1.netEffect c evs w = 0) /\
  (forall c evs w w',
      V2.runEngine evs w = (Ret tt, w') ->
      wholeLifetime (proj c evs) = true ->
      V2.netEffect c evs w = 0).
Proof.
  split.
  - apply V1Facts.v1_netEffect_wholeLifetime.
  - apply V2Runs.v2_netEffect_wholeLifetime.
Qed.

Lemma no_double_counting_witness :
  V1.netEffect 1 sampleRun
    (V1.initWorld (V1.NewWithServer ":8080" true) listenOk) = 0 /\
  V2.netEffect 1 sampleRun V2.servingWorld = 0.
Proof.
  split.
  - apply (proj1 no_double_counting 1%nat sampleRun
             (V1.initWorld (V1.NewWithServer ":8080" true) listenOk)
             (V1.runEngine sampleRun
                (V1.initWorld (V1.NewWithServer ":8080" true) listenOk)).2);
      vm_compute; reflexivity.
  - apply (proj2 no_double_counting 1%nat sampleRun V2.servingWorld
             (V2.runEngine sampleRun V2.servingWorld).2);
      vm_compute; reflexivity.
Defined.

(** C2 (drain correctness).  Variant 2, from a world whose counter is zero
    (and whose [Serve] goroutine is there to answer [Close], when the run
    contains calls of it): every run in which each connection is notified
    in order is handled without panic, and afterwards the drain counter is
    the number of connections whose current state is New or Active; so it
    is zero exactly when no connection is in such a state. *)
Theorem drain_counter_counts_busy_connections (evs : list Event) (w : V2.World) :
  V2.wg (V2.server w) = 0 ->
  (hasClose evs = true -> V2.serving w) ->
  ordered evs = true ->
  exists w',
    V2.runEngine evs w = (Ret tt, w') /\
    V2.wg (V2.server w') = Z.of_nat (size (inFlight evs)) /\
    (V2.wg (V2.server w') = 0 <-> forall c, busy (current evs c) = false).
Proof.
  intros Hz Hcl Hord.
  destruct (V2Runs.v2_runEngine_ordered evs w Hz Hord Hcl)
    as (w' & Hrun & Hcnt & _).
  exists w'. split; [done|]. split; [done|].
  rewrite Hcnt. apply inFlight_empty_iff.
Qed.

Lemma drain_counter_counts_busy_connections_witness :
  exists w',
    V2.runEngine sampleRun V2.servingWorld = (Ret tt, w') /\
    V2.wg (V2.server w') = Z.of_nat (size (inFlight sampleRun)) /\
    (V2.wg (V2.server w') = 0 <-> forall c, busy (current sampleRun c) = false).
Proof.
  apply (drain_counter_counts_busy_connections sampleRun V2.servingWorld).
  - vm_compute; reflexivity.
  - intros _. vm_compute. discriminate.
  - vm_compute; reflexivity.
Defined.

(** * The calls the callback makes *)

Module V2Effects.
Import V2 V2Facts.

(** The calls of one run of the callback: the connection is closed when
    it turns idle during shutdown, and the notification is passed on to
    the hook of the host when the callback gets that far. *)
Lemma v2_connState_effects c st w :
  effects (connState c st w).2 =
    effects w
    ++ (if bool_decide (st = StateIdle) && (closing w =? 1)
        then [EConnClose c] else [])
    ++ match (connState c st w).1 with
       | Ret _ => if originalConnState w then [EConnState c st] else []
       | _ => []
       end.
Proof.
  open_callback.
  destruct st; split_ifs; rewrite <- ?app_assoc, ?app_nil_r; try done; lia.
Qed.

Lemma v2_connState_closing c st w :
  closing (connState c st w).2 = closing w.
Proof. callback_cases st. Qed.

Lemma v2_connState_never_blocks c st w : (connState c st w).1 <> Block.
Proof. rewrite v2_connState_result. by destruct (_ && _). Qed.

End V2Effects.

Module V1Effects.
Import V1 V1Facts.

Lemma v1_connState_effects c st w :
  effects (connState c st w).2 =
    effects w
    ++ (if bool_decide (st = StateIdle) && (closing w =? 1)
        then [EConnClose c] else [])
    ++ match (connState c st w).1 with
       | Ret _ =>
           (if stateHandler (server w)
            then [EStateHandler c (lastOf w c) st] else [])
           ++ (if orgConnState w then [EConnState c st] else [])
       | _ => []
       end.
Proof.
  open_callback.
  destruct st; split_ifs; rewrite <- ?app_assoc, ?app_nil_r; try done; lia.
Qed.

Lemma v1_connState_shutdown c st w :
  shutdown (server (connState c st w).2) = shutdown (server w).
Proof. callback_cases st. Qed.

Lemma v1_connState_closing c st w :
  closing (connState c st w).2 = closing w.
Proof. callback_cases st. Qed.

Lemma v1_connState_never_blocks c st w : (connState c st w).1 <> Block.
Proof. rewrite v1_connState_result. by destruct (_ && _). Qed.

End V1Effects.

(** * Close *)

Module CloseFacts.

(** Variant 2: the first [Close] received by the goroutine of [Serve]
    returns what was sent and leaves the channel closed. *)
Lemma v2_Close_first w v :
  V2.shutdown (V2.server w) = V2.ChanSending v ->
  (V2.Close w).1 = Ret v /\
  V2.shutdown (V2.server (V2.Close w).2) = V2.ChanClosed /\
  V2.closing (V2.Close w).2 = 1.
Proof.
  intros Hch. unfold V2.Close, V2.shutdownRoutine, V2.emit. run_monad.
  by rewrite Hch.
Qed.

(** Variant 2: on a closed channel [Close] only writes its log line and
    returns false. *)
Lemma v2_Close_again w :
  V2.shutdown (V2.server w) = V2.ChanClosed ->
  V2.Close w =
    (Ret false,
     (V2.emit (V2.ELogShutdown (V2.Addr (V2.server w))) w).2).
Proof.
  intros Hch. unfold V2.Close, V2.ELogShutdown, V2.emit. run_monad.
  by rewrite Hch.
Qed.

(** Variant 2: [Close] never panics. *)
Lemma v2_Close_never_panics w : (V2.Close w).1 <> Panic.
Proof.
  unfold V2.Close, V2.shutdownRoutine, V2.emit. run_monad.
  by destruct (V2.shutdown (V2.server w)).
Qed.

(** Variant 1: [Close] closes an open channel and panics on a closed one. *)
Lemma v1_Close_open w :
  V1.shutdown (V1.server w) = V1.ChanOpen ->
  (V1.Close w).1 = Ret tt /\
  V1.shutdown (V1.server (V1.Close w).2) = V1.ChanClosed.
Proof.
  intros Hch. unfold V1.Close, V1.shutdownRoutine, V1.emit. run_monad.
  rewrite Hch. simpl. by destruct (V1.waiting w).
Qed.

Lemma v1_Close_closed w :
  V1.shutdown (V1.server w) = V1.ChanClosed -> V1.Close w = (Panic, w).
Proof.
  intros Hch. unfold V1.Close. run_monad. by rewrite Hch.
Qed.

End CloseFacts.

(** C3 (shutdown idempotence).  Variant 1 does not have it: on a server
    fresh from [NewWithServer] the first [Close] returns and the second
    panics, because it closes the channel a second time; and from every
    world two calls of [Close] in a row end in a panic. *)
Theorem second_Close_panics_in_variant_1 :
  (V1.Close (V1.initWorld (V1.NewWithServer ":8080" false) listenOk)).1
    = Ret tt /\
  ((V1.Close ;;; V1.Close)
     (V1.initWorld (V1.NewWithServer ":8080" false) listenOk)).1 = Panic /\
  forall w, ((V1.Close ;;; V1.Close) w).1 = Panic.
Proof.
  assert (forall w, ((V1.Close ;;; V1.Close) w).1 = Panic) as Hall.
  { intros w. unfold bind at 1.
    destruct (V1.shutdown (V1.server w)) eqn:Hch.
    - destruct (CloseFacts.v1_Close_open w Hch) as [Hr Hc].
      destruct (V1.Close w) as [r w1]. simpl in Hr, Hc. subst r.
      by rewrite CloseFacts.v1_Close_closed.
    - by rewrite CloseFacts.v1_Close_closed. }
  split; [reflexivity|]. split; [apply Hall|apply Hall].
Qed.

(** * The callback, one notification at a time *)

(** C5 (idle reap).  In both variants the callback, told that a connection
    turned idle, calls [conn.Close()] first of all when the closing flag is 1,
    and makes no call of [Close] on any connection when the flag is not 1. *)
Theorem idle_connection_closed_during_shutdown :
  (forall c w, V1.closing w = 1 ->
     exists rest, V1.effects (V1.connState c StateIdle w).2
                  = V1.effects w ++ EConnClose c :: rest) /\
  (forall c w, V1.closing w <> 1 ->
     exists rest, V1.effects (V1.connState c StateIdle w).2
                  = V1.effects w ++ rest /\
                  forall c', EConnClose c' ∉ rest) /\
  (forall c w, V2.closing w = 1 ->
     exists rest, V2.effects (V2.connState c StateIdle w).2
                  = V2.effects w ++ EConnClose c :: rest) /\
  (forall c w, V2.closing w <> 1 ->
     exists rest, V2.effects (V2.connState c StateIdle w).2
                  = V2.effects w ++ rest /\
                  forall c', EConnClose c' ∉ rest).
Proof.
  repeat split.
  - intros c w Hcl. rewrite V1Effects.v1_connState_effects, Hcl. simpl.
    eauto.
  - intros c w Hcl. rewrite V1Effects.v1_connState_effects.
    apply Z.eqb_neq in Hcl. rewrite Hcl. simpl. eexists. split; [done|].
    intros c'. destruct (V1.connState c StateIdle w).1;
      destruct (V1.stateHandler (V1.server w)), (V1.orgConnState w); simpl;
      set_solver.
  - intros c w Hcl. rewrite V2Effects.v2_connState_effects, Hcl. simpl.
    eauto.
  - intros c w Hcl. rewrite V2Effects.v2_connState_effects.
    apply Z.eqb_neq in Hcl. rewrite Hcl. simpl. eexists. split; [done|].
    intros c'. destruct (V2.connState c StateIdle w).1;
      destruct (V2.originalConnState w); simpl; set_solver.
Qed.

Lemma idle_connection_closed_during_shutdown_witness :
  exists rest,
    V2.effects
      (V2.connState 7 StateIdle (V2.set_closing 1 V2.servingWorld)).2
    = V2.effects (V2.set_closing 1 V2.servingWorld) ++ EConnClose 7 :: rest.
Proof.
  apply (proj1 (proj2 (proj2 idle_connection_closed_during_shutdown))).
  reflexivity.
Defined.

(** C6.  In both variants a notification of Closed or Hijacked takes one
    from the drain counter when the state last recorded for the connection
    is not Idle, and leaves the counter alone when it is Idle. *)
Theorem terminal_notification_decrements_unless_idle :
  (forall c st w, isTerminal st = true ->
     V1.wg (V1.server (V1.connState c st w).2) =
     V1.wg (V1.server w)
     - (if bool_decide (V1.lastOf w c = StateIdle) then 0 else 1)) /\
  (forall c st w, isTerminal st = true ->
     V2.wg (V2.server (V2.connState c st w).2) =
     V2.wg (V2.server w)
     - (if bool_decide (V2.lastOf w c = StateIdle) then 0 else 1)).
Proof.
  split; intros c st w Hterm.
  - rewrite V1Facts.v1_connState_counter.
    destruct st; try discriminate; simpl; repeat case_bool_decide;
      try lia; congruence.
  - rewrite V2Facts.v2_connState_counter.
    destruct st; try discriminate; simpl; repeat case_bool_decide;
      try lia; congruence.
Qed.

Lemma terminal_notification_decrements_unless_idle_witness :
  V2.wg (V2.server (V2.connState 1 StateClosed
           (V2.runEngine [Notify 1 StateNew] V2.servingWorld).2).2) =
  V2.wg (V2.server (V2.runEngine [Notify 1 StateNew] V2.servingWorld).2)
  - (if bool_decide
          (V2.lastOf (V2.runEngine [Notify 1 StateNew] V2.servingWorld).2 1
           = StateIdle)
     then 0 else 1).
Proof.
  apply (proj2 terminal_notification_decrements_unless_idle). reflexivity.
Defined.

Lemma runEvents_snoc_Ret {W} (step : Event -> M W unit) evs ev w w' :
  runEvents step (evs ++ [ev]) w = (Ret tt, w') ->
  exists w1, runEvents step evs w = (Ret tt, w1) /\ step ev w1 = (Ret tt, w').
Proof.
  rewrite runEvents_app. unfold bind at 1.
  destruct (runEvents step evs w) as [[[]| |] w1]; try discriminate.
  simpl. unfold bind, ret.
  destruct (step ev w1) as [[[]| |] w2] eqn:Hstep; try discriminate.
  intros [= <-]. eauto.
Qed.

(** Variant 2: after a run from an empty map, the map holds the current
    state of the connections that have not terminated, and nothing else. *)
Lemma v2_map_tracks evs : forall w w',
  V2.lastConnState (V2.server w) = ∅ ->
  V2.runEngine evs w = (Ret tt, w') ->
  forall c, V2.lastConnState (V2.server w') !! c = V2.tracked (current evs c).
Proof.
  induction evs as [|ev evs IH] using rev_ind; intros w w' Hempty Hrun c.
  - injection Hrun as <-. rewrite Hempty. by rewrite lookup_empty.
  - apply runEvents_snoc_Ret in Hrun as (w1 & Hrun & Hstep).
    specialize (IH w w1 Hempty Hrun). destruct ev as [c0 st|].
    + pose proof (V2Facts.v2_connState_map c0 st w1) as Hmap.
      simpl in Hstep. rewrite Hstep in Hmap. simpl in Hmap.
      rewrite Hmap by done. destruct (decide (c0 = c)) as [->|Hne].
      * rewrite current_snoc_same. simpl. destruct (isTerminal st).
        -- by rewrite lookup_delete_eq.
        -- by rewrite lookup_insert_eq.
      * rewrite current_snoc_other by done. destruct (isTerminal st).
        -- by rewrite lookup_delete_ne.
        -- by rewrite lookup_insert_ne.
    + pose proof (V2Facts.v2_Close_map w1) as Hmap.
      rewrite Hstep in Hmap. simpl in Hmap.
      by rewrite Hmap, current_snoc_close.
Qed.

(** C7.  Variant 2.  When the callback returns, the entry of the
    connection is gone if the new state is Closed or Hijacked and is the
    new state otherwise, and no other entry has changed.  Hence after every
    ordered run from a fresh server (which the callback survives) the map
    holds exactly the connections that have not terminated, each with its
    current state. *)
Theorem terminated_connection_has_no_entry :
  (forall c st w w',
     V2.connState c st w = (Ret tt, w') ->
     V2.lastConnState (V2.server w') !! c
       = (if isTerminal st then None else Some st) /\
     forall c', c' <> c ->
       V2.lastConnState (V2.server w') !! c'
       = V2.lastConnState (V2.server w) !! c') /\
  (forall evs w,
     V2.wg (V2.server w) = 0 ->
     V2.lastConnState (V2.server w) = ∅ ->
     (hasClose evs = true -> V2.serving w) ->
     ordered evs = true ->
     exists w',
       V2.runEngine evs w = (Ret tt, w') /\
       forall c, V2.lastConnState (V2.server w') !! c
                 = V2.tracked (current evs c)).
Proof.
  split.
  - intros c st w w' Hstep.
    pose proof (V2Facts.v2_connState_map c st w) as Hmap.
    rewrite Hstep in Hmap. simpl in Hmap. rewrite Hmap by done.
    destruct (isTerminal st); split.
    + by rewrite lookup_delete_eq.
    + intros c' Hne. by rewrite lookup_delete_ne.
    + by rewrite lookup_insert_eq.
    + intros c' Hne. by rewrite lookup_insert_ne.
  - intros evs w Hz Hempty Hcl Hord.
    destruct (V2Runs.v2_runEngine_ordered evs w Hz Hord Hcl)
      as (w' & Hrun & _).
    exists w'. split; [done|]. by apply (v2_map_tracks evs w w').
Qed.

Lemma terminated_connection_has_no_entry_witness :
  exists w',
    V2.runEngine sampleRun V2.servingWorld = (Ret tt, w') /\
    forall c, V2.lastConnState (V2.server w') !! c
              = V2.tracked (current sampleRun c).
Proof.
  apply (proj2 terminated_connection_has_no_entry).
  - reflexivity.
  - reflexivity.
  - intros _. unfold V2.serving. simpl. discriminate.
  - reflexivity.
Defined.

(** C8.  Whenever the callback returns, the calls it has made are, in
    this order: [conn.Close()] if the connection turned idle during
    shutdown; in variant 1 the injected state handler, if there is one,
    with the connection, the state recorded before this notification and
    the new state; and the ConnState hook the host had installed on the
    wrapped server, if there is one, with the connection and the new state.
    Variant 2 has no injected state handler. *)
Theorem notifications_forwarded :
  (forall c st w w',
     V1.connState c st w = (Ret tt, w') ->
     V1.effects w' =
       V1.effects w
       ++ (if bool_decide (st = StateIdle) && (V1.closing w =? 1)
           then [EConnClose c] else [])
       ++ (if V1.stateHandler (V1.server w)
           then [EStateHandler c (V1.lastOf w c) st] else [])
       ++ (if V1.orgConnState w then [EConnState c st] else [])) /\
  (forall c st w w',
     V2.connState c st w = (Ret tt, w') ->
     V2.effects w' =
       V2.effects w
       ++ (if bool_decide (st = StateIdle) && (V2.closing w =? 1)
           then [EConnClose c] else [])
       ++ (if V2.originalConnState w then [EConnState c st] else [])).
Proof.
  split; intros c st w w' Hstep.
  - pose proof (V1Effects.v1_connState_effects c st w) as He.
    by rewrite Hstep in He.
  - pose proof (V2Effects.v2_connState_effects c st w) as He.
    by rewrite Hstep in He.
Qed.

Lemma notifications_forwarded_witness :
  V1.effects (V1.connState 1 StateIdle V1.observedWorld).2 =
    V1.effects V1.observedWorld
    ++ (if bool_decide (StateIdle = StateIdle)
           && (V1.closing V1.observedWorld =? 1)
        then [EConnClose 1%nat] else [])
    ++ (if V1.stateHandler (V1.server V1.observedWorld)
        then [EStateHandler 1 (V1.lastOf V1.observedWorld 1) StateIdle]
        else [])
    ++ (if V1.orgConnState V1.observedWorld
        then [EConnState 1 StateIdle] else []).
Proof.
  refine (proj1 notifications_forwarded 1%nat StateIdle V1.observedWorld
            (V1.connState 1%nat StateIdle V1.observedWorld).2 _).
  vm_compute. reflexivity.
Defined.

(** * The return of Serve *)

Module ServeFacts.

Lemma v2_Serve_return_eq err w :
  V2.Serve_return err w =
    (if bool_decide (err = None) || (V2.closing w =? 1)
     then (if V2.wg (V2.server w) =? 0 then Ret None else Block)
     else Ret err, w).
Proof.
  unfold V2.Serve_return, V2.wg_Wait. run_monad.
  destruct (bool_decide (err = None) || (V2.closing w =? 1)); [|done].
  by destruct (V2.wg (V2.server w) =? 0).
Qed.

Lemma v1_Serve_return_eq err w :
  V1.Serve_return err w =
    (match err with
     | None | Some listenerAlreadyClosed =>
         if V1.wg (V1.server w) =? 0 then Ret None else Block
     | Some e => Ret (Some e)
     end, w).
Proof.
  unfold V1.Serve_return, V1.wg_Wait. run_monad.
  destruct err as [[]|]; try done; by destruct (V1.wg (V1.server w) =? 0).
Qed.

(** [Serve] is its run followed by its return block. *)
Lemma v2_Serve_eq l eng w :
  V2.Serve l eng w =
    match V2.Serve_run l eng w with
    | (Ret _, w1) => V2.Serve_return (result eng) w1
    | (Panic, w1) => (Panic, w1)
    | (Block, w1) => (Block, w1)
    end.
Proof. reflexivity. Qed.

Lemma v1_Serve_eq l eng w :
  V1.Serve l eng w =
    match V1.Serve_run l eng w with
    | (Ret _, w1) => V1.Serve_return (result eng) w1
    | (Panic, w1) => (Panic, w1)
    | (Block, w1) => (Block, w1)
    end.
Proof. reflexivity. Qed.

End ServeFacts.

(** C4 (exit contract).  [Serve] returns nil exactly when the accept loop
    has returned, the return block has chosen to drain, and the drain is
    complete (the counter is zero).  It chooses to drain when the engine
    returned no error, or, in variant 1, the error of the closed listener,
    or, in variant 2, any error while the closing flag is 1.  Every other
    engine error is what [Serve] returns, unchanged: in variant 2 a
    non-nil engine error is returned exactly when the closing flag is not 1. *)
Theorem Serve_return_policy :
  (forall l eng w,
     (V1.Serve l eng w).1 = Ret None <->
     exists w1, V1.Serve_run l eng w = (Ret tt, w1) /\
       (result eng = None \/ result eng = Some listenerAlreadyClosed) /\
       V1.wg (V1.server w1) = 0) /\
  (forall l eng w e,
     (V1.Serve l eng w).1 = Ret (Some e) <->
     exists w1, V1.Serve_run l eng w = (Ret tt, w1) /\
       result eng = Some e /\ e <> listenerAlreadyClosed) /\
  (forall l eng w,
     (V2.Serve l eng w).1 = Ret None <->
     exists w1, V2.Serve_run l eng w = (Ret tt, w1) /\
       (result eng = None \/ V2.closing w1 = 1) /\
       V2.wg (V2.server w1) = 0) /\
  (forall l eng w e,
     (V2.Serve l eng w).1 = Ret (Some e) <->
     exists w1, V2.Serve_run l eng w = (Ret tt, w1) /\
       result eng = Some e /\ V2.closing w1 <> 1).
Proof.
  repeat split.
  - rewrite ServeFacts.v1_Serve_eq.
    destruct (V1.Serve_run l eng w) as [[[]| |] w1]; try discriminate.
    rewrite ServeFacts.v1_Serve_return_eq. simpl. intros H.
    exists w1. split; [done|].
    destruct (result eng) as [[]|]; try discriminate;
      destruct (Z.eqb_spec (V1.wg (V1.server w1)) 0); try discriminate;
      auto.
  - intros (w1 & Hrun & Hres & Hz). rewrite ServeFacts.v1_Serve_eq, Hrun.
    rewrite ServeFacts.v1_Serve_return_eq. simpl. rewrite Hz.
    by destruct Hres as [-> | ->].
  - rewrite ServeFacts.v1_Serve_eq.
    destruct (V1.Serve_run l eng w) as [[[]| |] w1]; try discriminate.
    rewrite ServeFacts.v1_Serve_return_eq. simpl. intros H.
    exists w1. split; [done|].
    destruct (result eng) as [[]|]; try discriminate;
      try (destruct (V1.wg (V1.server w1) =? 0); discriminate);
      injection H as <-; done.
  - intros (w1 & Hrun & Hres & Hne). rewrite ServeFacts.v1_Serve_eq, Hrun.
    rewrite ServeFacts.v1_Serve_return_eq. simpl. rewrite Hres.
    by destruct e.
  - rewrite ServeFacts.v2_Serve_eq.
    destruct (V2.Serve_run l eng w) as [[[]| |] w1]; try discriminate.
    rewrite ServeFacts.v2_Serve_return_eq. simpl. intros H.
    exists w1. split; [done|].
    destruct (result eng) as [e|]; simpl in H.
    + destruct (Z.eqb_spec (V2.closing w1) 1); [|discriminate].
      destruct (Z.eqb_spec (V2.wg (V2.server w1)) 0); [auto|discriminate].
    + destruct (Z.eqb_spec (V2.wg (V2.server w1)) 0); [auto|discriminate].
  - intros (w1 & Hrun & Hres & Hz). rewrite ServeFacts.v2_Serve_eq, Hrun.
    rewrite ServeFacts.v2_Serve_return_eq. simpl. rewrite Hz. simpl.
    destruct Hres as [-> | ->]; [done|].
    by rewrite orb_true_r.
  - rewrite ServeFacts.v2_Serve_eq.
    destruct (V2.Serve_run l eng w) as [[[]| |] w1]; try discriminate.
    rewrite ServeFacts.v2_Serve_return_eq. simpl. intros H.
    exists w1. split; [done|].
    destruct (result eng) as [e'|]; simpl in H.
    + destruct (Z.eqb_spec (V2.closing w1) 1).
      * destruct (V2.wg (V2.server w1) =? 0); discriminate.
      * by injection H as <-.
    + destruct (V2.wg (V2.server w1) =? 0); discriminate.
  - intros (w1 & Hrun & Hres & Hne). rewrite ServeFacts.v2_Serve_eq, Hrun.
    rewrite ServeFacts.v2_Serve_return_eq. simpl. rewrite Hres. simpl.
    apply Z.eqb_neq in Hne. by rewrite Hne.
Qed.

Lemma Serve_return_policy_witness :
  (V2.Serve (TCPListener ":8080")
     (mkEngine drainedRun
        (Some (errorString "use of closed network connection")))
     (V2.initWorld (V2.NewWithServer ":8080" false)
        noSuchFile removeOk listenOk)).1 = Ret None.
Proof.
  apply (proj2 (proj1 (proj2 (proj2 Serve_return_policy))
                  (TCPListener ":8080")
                  (mkEngine drainedRun
                     (Some (errorString "use of closed network connection")))
                  (V2.initWorld (V2.NewWithServer ":8080" false)
                     noSuchFile removeOk listenOk))).
  exists (V2.Serve_run (TCPListener ":8080")
            (mkEngine drainedRun
               (Some (errorString "use of closed network connection")))
            (V2.initWorld (V2.NewWithServer ":8080" false)
               noSuchFile removeOk listenOk)).2.
  split; [vm_compute; reflexivity|].
  split; [right; vm_compute; reflexivity|vm_compute; reflexivity].
Defined.

(** * Listening *)

Module ListenFacts.
Import V2.

Lemma net_listen_eq network addr w :
  net_listen network addr w =
    (Ret match net_Listen w network addr with
         | Some err => inr err
         | None => inl (if bool_decide (network = "unix")
                        then UnixListener addr else TCPListener addr)
         end,
     (emit (ENetListen network addr) w).2).
Proof.
  unfold net_listen, emit. run_monad.
  by destruct (net_Listen w network addr).
Qed.

Lemma listenToUnix_eq bind w :
  listenToUnix bind w =
    match os_Stat w bind with
    | None =>
        match os_Remove w bind with
        | Some e => (Ret (inr e), (emit (ERemove bind) w).2)
        | None => net_listen "unix" bind (emit (ERemove bind) w).2
        end
    | Some e =>
        if os_IsNotExist e then net_listen "unix" bind w
        else (Ret (inr e), w)
    end.
Proof.
  unfold listenToUnix, emit. run_monad.
  destruct (os_Stat w bind) as [e|]; simpl.
  - by destruct (os_IsNotExist e).
  - by destruct (os_Remove w bind).
Qed.

End ListenFacts.

(** C9.  Variant 2: when the address to bind ([s.Addr], or ":http" if
    that is empty) neither starts with "/" or "." nor contains a colon,
    [ListenAndServe] returns the parse error at once: nothing is listened
    on, no accept loop is started, and the world, the server included, is
    as before.  Variant 1 has no check of its own: it hands the address to
    [net.Listen], and when that fails it returns the error at once, with
    the server unchanged and the call of [net.Listen] the only one made. *)
Theorem invalid_bind_address_reported :
  (forall eng w,
     V2.isUnixNetwork (V2.bindAddress (V2.Addr (V2.server w))) = false ->
     strings_Contains (V2.bindAddress (V2.Addr (V2.server w))) ":" = false ->
     V2.ListenAndServe eng w =
       (Ret (Some (errorString
                     ("error while parsing bind arg "
                      +:+ V2.bindAddress (V2.Addr (V2.server w))))),
        w)) /\
  (forall eng w err,
     V1.listener (V1.server w) = None ->
     V1.net_Listen w (V1.chooseNetwork (V1.Addr (V1.server w)))
       (V1.Addr (V1.server w)) = Some err ->
     (V1.ListenAndServe eng w).1 = Ret (Some err) /\
     V1.server (V1.ListenAndServe eng w).2 = V1.server w /\
     V1.effects (V1.ListenAndServe eng w).2 =
       V1.effects w
       ++ [ENetListen (V1.chooseNetwork (V1.Addr (V1.server w)))
             (V1.Addr (V1.server w))]).
Proof.
  split.
  - intros eng w Hunix Hcolon.
    unfold V2.ListenAndServe, V2.listen. run_monad.
    by rewrite Hunix, Hcolon.
  - intros eng w err Hnil Hfail.
    unfold V1.ListenAndServe, V1.net_listen, V1.emit. run_monad.
    rewrite Hnil. simpl. by rewrite Hfail.
Qed.

Lemma invalid_bind_address_reported_witness :
  V2.ListenAndServe (mkEngine sampleRun None)
    (V2.initWorld (V2.NewWithServer "localhost" false)
       noSuchFile removeOk listenOk) =
  (Ret (Some (errorString "error while parsing bind arg localhost")),
   V2.initWorld (V2.NewWithServer "localhost" false)
     noSuchFile removeOk listenOk).
Proof.
  apply (proj1 invalid_bind_address_reported
           (mkEngine sampleRun None)
           (V2.initWorld (V2.NewWithServer "localhost" false)
              noSuchFile removeOk listenOk)); reflexivity.
Defined.

(** C10.  Variant 2, binding a Unix socket.  When [os.Stat] finds the path
    and [os.Remove] succeeds, the file is removed and then, and only then,
    [net.Listen] is called on the path, and its outcome is the result.
    When [os.Remove] fails its error is the result and [net.Listen] is not
    called.  When [os.Stat] fails with an error other than not-exist that
    error is the result and nothing at all is done.  [listen] takes this
    path for every address that starts with "/" or ".". *)
Theorem stale_socket_removed_before_listening :
  (forall bind w,
     V2.os_Stat w bind = None -> V2.os_Remove w bind = None ->
     (V2.listenToUnix bind w).1 =
       Ret match V2.net_Listen w "unix" bind with
           | Some err => inr err
           | None => inl (UnixListener bind)
           end /\
     V2.effects (V2.listenToUnix bind w).2 =
       V2.effects w ++ [ERemove bind; ENetListen "unix" bind]) /\
  (forall bind w e,
     V2.os_Stat w bind = None -> V2.os_Remove w bind = Some e ->
     (V2.listenToUnix bind w).1 = Ret (inr e) /\
     V2.effects (V2.listenToUnix bind w).2 = V2.effects w ++ [ERemove bind]) /\
  (forall bind w e,
     V2.os_Stat w bind = Some e -> os_IsNotExist e = false ->
     V2.listenToUnix bind w = (Ret (inr e), w)) /\
  (forall bind w,
     V2.isUnixNetwork bind = true ->
     V2.listen bind w =
       V2.listenToUnix bind
         (V2.emit (ELogPrintf "Listening on unix socket %s\n" bind) w).2).
Proof.
  repeat split.
  - rewrite ListenFacts.listenToUnix_eq, H, H0, ListenFacts.net_listen_eq.
    done.
  - rewrite ListenFacts.listenToUnix_eq, H, H0, ListenFacts.net_listen_eq.
    simpl. by rewrite <- app_assoc.
  - rewrite ListenFacts.listenToUnix_eq, H, H0. done.
  - rewrite ListenFacts.listenToUnix_eq, H, H0. done.
  - intros bind w e Hstat Hne.
    by rewrite ListenFacts.listenToUnix_eq, Hstat, Hne.
  - intros bind w Hunix. unfold V2.listen. by rewrite Hunix.
Qed.

Lemma stale_socket_removed_before_listening_witness :
  (V2.listenToUnix "/tmp/app.sock"
     (V2.initWorld (V2.NewWithServer "/tmp/app.sock" false)
        fileExists removeOk listenOk)).1 =
    Ret match V2.net_Listen
                (V2.initWorld (V2.NewWithServer "/tmp/app.sock" false)
                   fileExists removeOk listenOk) "unix" "/tmp/app.sock" with
        | Some err => inr err
        | None => inl (UnixListener "/tmp/app.sock")
        end /\
  V2.effects
    (V2.listenToUnix "/tmp/app.sock"
       (V2.initWorld (V2.NewWithServer "/tmp/app.sock" false)
          fileExists removeOk listenOk)).2 =
    V2.effects
      (V2.initWorld (V2.NewWithServer "/tmp/app.sock" false)
         fileExists removeOk listenOk)
    ++ [ERemove "/tmp/app.sock"; ENetListen "unix" "/tmp/app.sock"].
Proof.
  apply (proj1 stale_socket_removed_before_listening "/tmp/app.sock"
           (V2.initWorld (V2.NewWithServer "/tmp/app.sock" false)
              fileExists removeOk listenOk)); reflexivity.
Defined.

(** * Further properties of the code *)

(** A property kept by every step is kept by the run. *)
Lemma runEvents_invariant {W} (step : Event -> M W unit) (P : W -> Prop) evs :
  (forall ev w, ev ∈ evs -> P w -> P (step ev w).2) ->
  forall w, P w -> P (runEvents step evs w).2.
Proof.
  induction evs as [|ev evs IH]; intros Hstep w HP; [done|].
  simpl. unfold bind.
  pose proof (Hstep ev w (list_elem_of_here _ _) HP) as H1.
  destruct (step ev w) as [[[]| |] w1]; simpl in *; try done.
  apply IH; [|done]. intros ev' w' Hin. apply Hstep. by right.
Qed.

Lemma hasClose_false_Notify evs ev :
  hasClose evs = false -> ev ∈ evs -> exists c st, ev = Notify c st.
Proof.
  induction evs as [|[c st|] evs IH]; simpl; intros Hnc Hin.
  - by apply elem_of_nil in Hin.
  - apply elem_of_cons in Hin as [->|Hin]; eauto.
  - discriminate.
Qed.

Module V2Further.
Import V2 V2x V2Facts.

Lemma v2_Close_eq w :
  Close w =
    match shutdown (server w) with
    | ChanSending v =>
        (Ret v,
         record [ELogShutdown (Addr (server w)); ESetKeepAlivesEnabled false;
                 EListenerClose]
           (set_closing 1 (set_server (set_shutdown ChanClosed) w)))
    | ChanClosed => (Ret false, record [ELogShutdown (Addr (server w))] w)
    | ChanOpen => (Block, record [ELogShutdown (Addr (server w))] w)
    end.
Proof.
  unfold Close, shutdownRoutine, emit, record. run_monad.
  destruct (shutdown (server w)); simpl; rewrite <- ?app_assoc; done.
Qed.




Lemma v2_step_armed ev w : armed w -> armed (step ev w).2.
Proof.
  unfold armed. destruct ev as [c st|]; simpl.
  - rewrite v2_connState_shutdown, V2Effects.v2_connState_closing. done.
  - unfold bind. rewrite v2_Close_eq. intros [[v Hv]|[Hc Hcl]].
    + rewrite Hv. simpl. by right.
    + rewrite Hc. simpl. by right.
Qed.

Lemma v2_step_closed ev w :
  shutdown (server w) = ChanClosed /\ closing w = 1 ->
  shutdown (server (step ev w).2) = ChanClosed /\ closing (step ev w).2 = 1.
Proof.
  intros [Hc Hcl]. destruct ev as [c st|]; simpl.
  - by rewrite v2_connState_shutdown, V2Effects.v2_connState_closing.
  - unfold bind. rewrite v2_Close_eq, Hc. done.
Qed.

Lemma v2_Close_armed w :
  armed w ->
  shutdown (server (step CallClose w).2) = ChanClosed /\
  closing (step CallClose w).2 = 1.
Proof.
  simpl. unfold bind. rewrite v2_Close_eq. intros [[v Hv]|[Hc Hcl]].
  - by rewrite Hv.
  - by rewrite Hc.
Qed.

(** After a run that returns and contains a [Close], from an armed
    world, the channel is closed and the flag is set; without a [Close]
    neither changes. *)
Lemma v2_run_shutdown evs : forall w w',
  armed w ->
  runEngine evs w = (Ret tt, w') ->
  if hasClose evs
  then shutdown (server w') = ChanClosed /\ closing w' = 1
  else shutdown (server w') = shutdown (server w) /\ closing w' = closing w.
Proof.
  induction evs as [|[c st|] evs IH]; intros w w' Harm Hrun.
  - by injection Hrun as <-.
  - apply runEvents_cons_Ret in Hrun as (w1 & Hstep & Hrun).
    pose proof (v2_step_armed (Notify c st) w Harm) as H1.
    pose proof (v2_connState_shutdown c st w) as H2.
    pose proof (V2Effects.v2_connState_closing c st w) as H3.
    rewrite Hstep in H1. simpl in Hstep. rewrite Hstep in H2, H3.
    simpl in *. specialize (IH w1 w' H1 Hrun).
    destruct (hasClose evs); [done|]. by rewrite <- H2, <- H3.
  - apply runEvents_cons_Ret in Hrun as (w1 & Hstep & Hrun).
    pose proof (v2_Close_armed w Harm) as Hcl. rewrite Hstep in Hcl.
    simpl in Hcl |- *.
    pose proof (runEvents_invariant step
             (fun w' => shutdown (server w') = ChanClosed /\ closing w' = 1)
             evs) as Hinv.
    unfold runEngine in Hrun. specialize (Hinv (fun ev w0 _ => v2_step_closed ev w0) w1 Hcl).
    by rewrite Hrun in Hinv.
Qed.

End V2Further.



(** X2.  In both variants the server never calls [Close] on a connection
    before shutdown is requested: over a run without a call of the
    server's [Close], from a world whose closing flag is not 1, no
    [conn.Close()] is among the calls made, whatever the notifications
    are and even if the run ends in a panic. *)
Theorem no_connection_closed_before_shutdown :
  (forall evs w,
     V1.closing w <> 1 -> hasClose evs = false ->
     exists es, V1.effects (V1.runEngine evs w).2 = V1.effects w ++ es /\
                forall c, EConnClose c ∉ es) /\
  (forall evs w,
     V2.closing w <> 1 -> hasClose evs = false ->
     exists es, V2.effects (V2.runEngine evs w).2 = V2.effects w ++ es /\
                forall c, EConnClose c ∉ es).
Proof.
  split; intros evs w Hcl Hnc.
  - cut (V1.closing (V1.runEngine evs w).2 <> 1 /\
           exists es, V1.effects (V1.runEngine evs w).2 = V1.effects w ++ es /\
                      forall c, EConnClose c ∉ es); [by intros [_ ?]|].
    apply (runEvents_invariant V1.step
             (fun w' => V1.closing w' <> 1 /\
                exists es, V1.effects w' = V1.effects w ++ es /\
                           forall c, EConnClose c ∉ es)); cycle 1.
    { split; [done|]. exists []. rewrite app_nil_r. split; [done|].
      intros c. apply not_elem_of_nil. }
    intros ev w1 Hin [Hcl1 (es & Hes & Hno)].
    destruct (hasClose_false_Notify evs ev Hnc Hin) as (c & st & ->).
    simpl. split.
    { by rewrite V1Effects.v1_connState_closing. }
    rewrite V1Effects.v1_connState_effects, Hes.
    apply Z.eqb_neq in Hcl1. rewrite Hcl1, andb_false_r. simpl.
    eexists. rewrite <- app_assoc. split; [done|].
    intros c'. rewrite elem_of_app. intros [?|Hin']; [by eapply Hno|].
    destruct (V1.connState c st w1).1;
      destruct (V1.stateHandler (V1.server w1)), (V1.orgConnState w1);
      simpl in Hin'; set_solver.
  - cut (V2.closing (V2.runEngine evs w).2 <> 1 /\
           exists es, V2.effects (V2.runEngine evs w).2 = V2.effects w ++ es /\
                      forall c, EConnClose c ∉ es); [by intros [_ ?]|].
    apply (runEvents_invariant V2.step
             (fun w' => V2.closing w' <> 1 /\
                exists es, V2.effects w' = V2.effects w ++ es /\
                           forall c, EConnClose c ∉ es)); cycle 1.
    { split; [done|]. exists []. rewrite app_nil_r. split; [done|].
      intros c. apply not_elem_of_nil. }
    intros ev w1 Hin [Hcl1 (es & Hes & Hno)].
    destruct (hasClose_false_Notify evs ev Hnc Hin) as (c & st & ->).
    simpl. split.
    { by rewrite V2Effects.v2_connState_closing. }
    rewrite V2Effects.v2_connState_effects, Hes.
    apply Z.eqb_neq in Hcl1. rewrite Hcl1, andb_false_r. simpl.
    eexists. rewrite <- app_assoc. split; [done|].
    intros c'. rewrite elem_of_app. intros [?|Hin']; [by eapply Hno|].
    destruct (V2.connState c st w1).1;
      destruct (V2.originalConnState w1); simpl in Hin'; set_solver.
Qed.

Lemma no_connection_closed_before_shutdown_witness :
  exists es,
    V2.effects
      (V2.runEngine [Notify 1 StateNew; Notify 1 StateActive;
                     Notify 1 StateIdle] V2.servingWorld).2
    = V2.effects V2.servingWorld ++ es /\
    forall c, EConnClose c ∉ es.
Proof.
  apply (proj2 no_connection_closed_before_shutdown
           [Notify 1 StateNew; Notify 1 StateActive; Notify 1 StateIdle]
           V2.servingWorld).
  - vm_compute. discriminate.
  - reflexivity.
Defined.

Module V2Reap.
Import V2 V2x V2Facts V2Further.


Lemma v2_Serve_run_eq l eng w :
  shutdown (server w) <> ChanClosed ->
  Serve_run l eng w = runEngine (events eng) (started l w).
Proof.
  intros Hch. unfold started, Serve_run, emit. run_monad.
  destruct (shutdown (server w)); try done;
    unfold set_server, set_shutdown, set_frame; simpl;
    destruct (isUnixNetwork (Addr (server w))); done.
Qed.

Lemma v2_started_facts l w :
  shutdown (server w) <> ChanClosed ->
  wg (server (started l w)) = wg (server w) /\
  shutdown (server (started l w)) = ChanSending true /\
  closing (started l w) = 0 /\
  lastConnState (server (started l w)) = lastConnState (server w).
Proof.
  intros Hch. unfold started, Serve_run, emit. run_monad.
  destruct (shutdown (server w)); try done;
    unfold set_server, set_shutdown, set_frame; simpl;
    destruct (isUnixNetwork (Addr (server w))); done.
Qed.

End V2Reap.



Module V2Serve.
Import V2 V2x V2Facts V2Further V2Reap.

(** The run of [Serve] on a server at rest whose connections are reported
    in order: the world in which the accept loop returns. *)
Lemma v2_Serve_run_ordered l evs err w :
  wg (server w) = 0 -> shutdown (server w) <> ChanClosed ->
  ordered evs = true ->
  exists w1,
    Serve_run l (mkEngine evs err) w = (Ret tt, w1) /\
    wg (server w1) = Z.of_nat (size (inFlight evs)) /\
    closing w1 = (if hasClose evs then 1 else 0) /\
    shutdown (server w1) =
      (if hasClose evs then ChanClosed else ChanSending true).
Proof.
  intros Hz Hch Hord.
  destruct (v2_started_facts l w Hch) as (Hwg & Hsh & Hcl & _).
  rewrite v2_Serve_run_eq by done. simpl.
  destruct (V2Runs.v2_runEngine_ordered evs (started l w))
    as (w1 & Hrun & Hcnt & _); [congruence|done| |].
  { intros _. unfold serving. rewrite Hsh. discriminate. }
  exists w1. split; [done|]. split; [done|].
  assert (armed (started l w)) as Harm by (left; eauto).
  pose proof (v2_run_shutdown evs (started l w) w1 Harm Hrun) as H.
  destruct (hasClose evs); destruct H as [H1 H2]; split; congruence.
Qed.

Lemma v2_Serve_closed l eng w :
  shutdown (server w) = ChanClosed -> (Serve l eng w).1 = Panic.
Proof.
  intros Hch. unfold Serve, Serve_run. run_monad. by rewrite Hch.
Qed.

Lemma size_inFlight_zero evs :
  (Z.of_nat (size (inFlight evs)) =? 0) = bool_decide (inFlight evs = ∅).
Proof.
  destruct (Z.eqb_spec (Z.of_nat (size (inFlight evs))) 0) as [Hz|Hnz];
    symmetry.
  - apply bool_decide_eq_true_2. apply leibniz_equiv, size_empty_iff. lia.
  - apply bool_decide_eq_false_2. intros Heq. rewrite Heq, size_empty in Hnz.
    done.
Qed.

End V2Serve.



(** X5.  Variant 2: a server that was shut down cannot serve again.  After
    a [Serve] on a server at rest, with every connection reported in
    order, during which [Close] was called, a further call of [Serve] on
    the same server panics: its goroutine sends on the closed channel. *)
Theorem Serve_again_after_shutdown_panics (l l2 : Listener)
    (evs : list Event) (err : option error) (eng2 : Engine) (w : V2.World) :
  V2.wg (V2.server w) = 0 ->
  V2.shutdown (V2.server w) <> V2.ChanClosed ->
  ordered evs = true ->
  hasClose evs = true ->
  (V2.Serve l2 eng2 (V2.Serve l (mkEngine evs err) w).2).1 = Panic.
Proof.
  intros Hz Hch Hord Hcl.
  destruct (V2Serve.v2_Serve_run_ordered l evs err w Hz Hch Hord)
    as (w1 & Hrun & _ & _ & Hsh).
  apply V2Serve.v2_Serve_closed.
  rewrite ServeFacts.v2_Serve_eq, Hrun, ServeFacts.v2_Serve_return_eq.
  simpl. by rewrite Hsh, Hcl.
Qed.

Lemma Serve_again_after_shutdown_panics_witness :
  (V2.Serve (TCPListener ":8081") (mkEngine [] None)
     (V2.Serve (TCPListener ":8080") (mkEngine drainedRun None)
        (V2.initWorld (V2.NewWithServer ":8080" false)
           noSuchFile removeOk listenOk)).2).1 = Panic.
Proof.
  apply (Serve_again_after_shutdown_panics (TCPListener ":8080")
           (TCPListener ":8081") drainedRun None (mkEngine [] None)
           (V2.initWorld (V2.NewWithServer ":8080" false)
              noSuchFile removeOk listenOk)).
  - reflexivity.
  - vm_compute. discriminate.
  - vm_compute. reflexivity.
  - reflexivity.
Defined.

(** * Runs that continue an earlier run *)

Lemma countClose_app evs1 evs2 :
  countClose (evs1 ++ evs2) = (countClose evs1 + countClose evs2)%nat.
Proof. induction evs1 as [|[c st|] evs1 IH]; simpl; auto. Qed.

Lemma countClose_hasClose evs : hasClose evs = false <-> countClose evs = O.
Proof.
  induction evs as [|[c st|] evs IH]; simpl; [done|done|].
  split; discriminate.
Qed.

(** The first call of [Close] and the second one, in a run with two. *)
Lemma countClose_two evs :
  (2 <= countClose evs)%nat ->
  exists pre mid post,
    evs = pre ++ CallClose :: mid ++ CallClose :: post /\
    hasClose pre = false /\ hasClose mid = false.
Proof.
  induction evs as [|[c st|] evs IH]; simpl; intros Hc; [lia| |].
  - destruct (IH Hc) as (pre & mid & post & -> & Hp & Hm).
    by exists (Notify c st :: pre), mid, post.
  - clear IH. exists []. simpl.
    assert (1 <= countClose evs)%nat as Hone by lia. clear Hc.
    induction evs as [|[c st|] evs IH]; simpl in *; [lia| |].
    + destruct (IH Hone) as (mid & post & Heq & _ & Hm).
      injection Heq as ->. by exists (Notify c st :: mid), post.
    + by exists [], evs.
Qed.

Lemma ordered_prefix evs1 evs2 :
  ordered (evs1 ++ evs2) = true -> ordered evs1 = true.
Proof.
  rewrite !ordered_spec. intros H c. specialize (H c).
  rewrite proj_app, lifecycleFrom_app in H.
  by apply andb_true_iff in H as [? _].
Qed.

Section TrackerFrom.

Context {W : Type}.
Variable step : Event -> M W unit.
Variable counter : W -> Z.
Variable lastOf : W -> Conn -> ConnState.

Hypothesis step_counter : forall c st w,
  counter (step (Notify c st) w).2 = counter w + switchEffect (lastOf w c) st.
Hypothesis step_result : forall c st w,
  (step (Notify c st) w).1 =
    if bool_decide (switchEffect (lastOf w c) st <> 0) &&
       (counter w + switchEffect (lastOf w c) st <? 0)
    then Panic else Ret tt.
Hypothesis step_last_same : forall c st w,
  (step (Notify c st) w).1 = Ret tt -> isTerminal st = false ->
  lastOf (step (Notify c st) w).2 c = st.
Hypothesis step_last_other : forall c c' st w,
  c <> c' -> (step (Notify c st) w).1 = Ret tt ->
  lastOf (step (Notify c st) w).2 c' = lastOf w c'.

(** Notifications that continue an ordered run are handled without panic
    and keep the counter at the number of busy connections. *)
Lemma tracker_run_from pre evs w :
  follows counter lastOf pre w ->
  ordered (pre ++ evs) = true ->
  hasClose evs = false ->
  exists w',
    runEvents step evs w = (Ret tt, w') /\
    follows counter lastOf (pre ++ evs) w'.
Proof.
  intros Hw. induction evs as [|ev evs IH] using rev_ind; intros Hord Hnc.
  - exists w. by rewrite app_nil_r.
  - rewrite hasClose_app in Hnc. apply orb_false_iff in Hnc as [Hnc Hev].
    destruct ev as [c st|]; [|discriminate]. rewrite app_assoc in Hord |- *.
    apply ordered_snoc in Hord as [Hord Hal].
    destruct (IH Hord Hnc) as (w1 & Hrun & Hcnt & Hlast).
    rewrite runEvents_app. unfold bind at 1. rewrite Hrun. simpl.
    unfold bind, ret.
    specialize (Hal c st eq_refl).
    assert (switchEffect (lastOf w1 c) st
            = weight (Some st) - weight (current (pre ++ evs) c)) as Hsw.
    { apply switchEffect_allowed; [done|]. intros p Hp.
      apply Hlast; [done|]. by eapply allowed_nonterminal. }
    pose proof (step_counter c st w1) as Hc.
    pose proof (step_result c st w1) as Hr.
    pose proof (size_inFlight_snoc (pre ++ evs) c st) as Hsz.
    rewrite Hsw in Hc, Hr.
    assert ((step (Notify c st) w1).1 = Ret tt) as Hret.
    { rewrite Hr. destruct (_ <? _) eqn:Hlt; [|by rewrite andb_false_r].
      apply Z.ltb_lt in Hlt. lia. }
    clear Hr.
    destruct (step (Notify c st) w1) as [r w2] eqn:Hstep. simpl in *.
    subst r. simpl. exists w2. split; [done|]. split; [lia|].
    intros c' p Hcur Hterm. destruct (decide (c = c')) as [<-|Hne].
    + rewrite current_snoc_same in Hcur. injection Hcur as <-.
      pose proof (step_last_same c st w1) as Hs.
      rewrite Hstep in Hs. by apply Hs.
    + rewrite current_snoc_other in Hcur by done.
      pose proof (step_last_other c c' st w1 Hne) as Hs.
      rewrite Hstep in Hs. simpl in Hs. rewrite Hs by done. auto.
Qed.

End TrackerFrom.

Lemma countClose_one evs :
  countClose evs = 1%nat ->
  exists pre post,
    evs = pre ++ CallClose :: post /\
    hasClose pre = false /\ hasClose post = false.
Proof.
  induction evs as [|[c st|] evs IH]; simpl; intros Hc; [lia| |].
  - destruct (IH Hc) as (pre & post & -> & Hp & Hq).
    by exists (Notify c st :: pre), post.
  - exists [], evs. repeat split. apply countClose_hasClose. lia.
Qed.

Lemma inFlight_nil : inFlight [] = ∅.
Proof. apply set_eq. intros c. rewrite elem_of_inFlight. set_solver. Qed.

Module V1Runs.
Import V1 V1Facts.

Lemma v1_run_from pre evs w :
  follows (fun w => wg (server w)) lastOf pre w ->
  ordered (pre ++ evs) = true ->
  hasClose evs = false ->
  exists w',
    runEngine evs w = (Ret tt, w') /\
    follows (fun w => wg (server w)) lastOf (pre ++ evs) w' /\
    shutdown (server w') = shutdown (server w).
Proof.
  intros Hw Hord Hnc.
  destruct (tracker_run_from step (fun w => wg (server w)) lastOf) with (pre := pre)
    (evs := evs) (w := w) as (w' & Hrun & Hf); auto.
  - apply v1_connState_counter.
  - apply v1_connState_result.
  - intros c st w0 Hret _. by apply v1_connState_last_same.
  - apply v1_connState_last_other.
  - exists w'. split; [done|]. split; [done|].
    assert (forall ev w0, ev ∈ evs ->
              shutdown (server w0) = shutdown (server w) ->
              shutdown (server (step ev w0).2) = shutdown (server w))
      as Hstep.
    { intros ev w0 Hin Hs.
      destruct (hasClose_false_Notify evs ev Hnc Hin) as (c & st & ->).
      simpl. by rewrite V1Effects.v1_connState_shutdown. }
    pose proof (runEvents_invariant step
      (fun w' => shutdown (server w') = shutdown (server w)) evs
      Hstep w eq_refl) as Hinv.
    by rewrite Hrun in Hinv.
Qed.

Lemma v1_follows_Close pre w :
  follows (fun w => wg (server w)) lastOf pre w ->
  follows (fun w => wg (server w)) lastOf (pre ++ [CallClose]) (Close w).2.
Proof.
  intros [Hc Hl]. split.
  - rewrite inFlight_snoc_close. pose proof (v1_Close_counter w) as H.
    simpl in H. simpl. congruence.
  - intros c p. rewrite current_snoc_close. intros Hcur Hterm.
    unfold lastOf. pose proof (v1_Close_store w) as H. simpl in H.
    rewrite H. by apply Hl.
Qed.

End V1Runs.

Lemma v1_runEngine_at_most_one_Close (evs : list Event) (w : V1.World) :
  V1.wg (V1.server w) = 0 ->
  V1.shutdown (V1.server w) = V1.ChanOpen ->
  ordered evs = true ->
  ((countClose evs <= 1)%nat ->
   exists w', V1.runEngine evs w = (Ret tt, w') /\
     V1.wg (V1.server w') = Z.of_nat (size (inFlight evs))) /\
  ((2 <= countClose evs)%nat -> (V1.runEngine evs w).1 = Panic).
Proof.
  intros Hz Hch Hord.
  assert (follows (fun w => V1.wg (V1.server w)) V1.lastOf [] w) as Hstart.
  { split; [by rewrite inFlight_nil, size_empty|]. intros c p Hcur.
    discriminate. }
  assert (forall pre post,
    evs = pre ++ CallClose :: post -> hasClose pre = false ->
    exists w1 w2,
      V1.runEngine pre w = (Ret tt, w1) /\
      V1.Close w1 = (Ret tt, w2) /\
      follows (fun w => V1.wg (V1.server w)) V1.lastOf (pre ++ [CallClose]) w2 /\
      V1.shutdown (V1.server w2) = V1.ChanClosed) as Hfirst.
  { intros pre post Heq Hp. rewrite Heq in Hord.
    destruct (V1Runs.v1_run_from [] pre w Hstart) as (w1 & Hrun & Hf & Hs);
      [by eapply ordered_prefix|done|].
    rewrite Hch in Hs.
    destruct (CloseFacts.v1_Close_open w1 Hs) as [Hr Hc].
    pose proof (V1Runs.v1_follows_Close pre w1 Hf) as Hf2.
    destruct (V1.Close w1) as [r w2] eqn:Hcl. simpl in *. subst r.
    by exists w1, w2. }
  split; intros Hcount.
  - destruct (countClose evs) as [|[|n]] eqn:Hn; [| |lia].
    + apply countClose_hasClose in Hn.
      destruct (V1Runs.v1_run_from [] evs w Hstart Hord Hn)
        as (w' & Hrun & [Hc _] & _). eauto.
    + destruct (countClose_one evs Hn) as (pre & post & Heq & Hp & Hq).
      destruct (Hfirst pre post Heq Hp) as (w1 & w2 & Hrun1 & Hcl & Hf & _).
      rewrite Heq in Hord |- *.
      replace (pre ++ CallClose :: post) with ((pre ++ [CallClose]) ++ post)
        in Hord |- * by by rewrite <- app_assoc.
      destruct (V1Runs.v1_run_from _ post w2 Hf Hord Hq)
        as (w' & Hrun2 & [Hc _] & _).
      exists w'. split; [|done]. unfold V1.runEngine in *.
      rewrite <- app_assoc. simpl. rewrite runEvents_app.
      unfold bind at 1. rewrite Hrun1. simpl. unfold bind at 1.
      by rewrite Hcl.
  - destruct (countClose_two evs Hcount)
      as (pre & mid & post & Heq & Hp & Hm).
    destruct (Hfirst pre _ Heq Hp) as (w1 & w2 & Hrun1 & Hcl & Hf & Hs).
    rewrite Heq in Hord |- *.
    replace (pre ++ CallClose :: mid ++ CallClose :: post)
      with (((pre ++ [CallClose]) ++ mid) ++ CallClose :: post)
      in Hord |- * by by rewrite <- !app_assoc.
    apply ordered_prefix in Hord.
    destruct (V1Runs.v1_run_from _ mid w2 Hf Hord Hm)
      as (w3 & Hrun2 & _ & Hs3).
    unfold V1.runEngine in *. rewrite <- !app_assoc. simpl.
    rewrite runEvents_app. unfold bind at 1. rewrite Hrun1. simpl.
    unfold bind at 1. rewrite Hcl. rewrite runEvents_app.
    unfold bind at 1. rewrite Hrun2. simpl. unfold bind at 1.
    rewrite CloseFacts.v1_Close_closed by congruence. done.
Qed.


(** X6.  Variant 1 over a whole run, from a server at rest (counter zero,
    channel open) whose connections are reported in order.  With at most
    one call of [Close] the run is handled without panic, and afterwards
    the drain counter is the number of connections in state New or
    Active.  With two calls or more the run ends in a panic. *)
Theorem variant_1_survives_one_Close (evs : list Event) (w : V1.World) :
  V1.wg (V1.server w) = 0 ->
  V1.shutdown (V1.server w) = V1.ChanOpen ->
  ordered evs = true ->
  ((countClose evs <= 1)%nat ->
   exists w', V1.runEngine evs w = (Ret tt, w') /\
     V1.wg (V1.server w') = Z.of_nat (size (inFlight evs))) /\
  ((2 <= countClose evs)%nat -> (V1.runEngine evs w).1 = Panic).
Proof. apply v1_runEngine_at_most_one_Close. Qed.

Lemma variant_1_survives_one_Close_witness :
  exists w',
    V1.runEngine sampleRun
      (V1.initWorld (V1.NewWithServer ":8080" false) listenOk)
    = (Ret tt, w') /\
    V1.wg (V1.server w') = Z.of_nat (size (inFlight sampleRun)).
Proof.
  apply (proj1 (variant_1_survives_one_Close sampleRun
                  (V1.initWorld (V1.NewWithServer ":8080" false) listenOk)
                  eq_refl eq_refl eq_refl)).
  simpl. lia.
Defined.

(** * Listening, further *)

(** X7.  Variant 1: [ListenAndServe] cannot serve a Unix socket.  On a
    server without a listener whose address starts with "/", the network
    chosen is "unix"; when [net.Listen] succeeds the listener it returns
    is not a TCP listener, the type assertion panics, and the accept loop
    is never started: the call of [net.Listen] is the only one made.  For
    every other address the network is "tcp", and a successful listen
    leads into [Serve] on the wrapped TCP listener. *)
Theorem variant_1_ListenAndServe_on_unix_socket_panics :
  (forall eng w,
     V1.listener (V1.server w) = None ->
     V1.isUnixNetwork (V1.Addr (V1.server w)) = true ->
     V1.net_Listen w "unix" (V1.Addr (V1.server w)) = None ->
     (V1.ListenAndServe eng w).1 = Panic /\
     V1.effects (V1.ListenAndServe eng w).2 =
       V1.effects w ++ [ENetListen "unix" (V1.Addr (V1.server w))] /\
     V1.server (V1.ListenAndServe eng w).2 = V1.server w) /\
  (forall eng w,
     V1.listener (V1.server w) = None ->
     V1.isUnixNetwork (V1.Addr (V1.server w)) = false ->
     V1.net_Listen w "tcp" (V1.Addr (V1.server w)) = None ->
     V1.ListenAndServe eng w =
       V1.Serve (GracefulListener (TCPListener (V1.Addr (V1.server w)))) eng
         (V1.set_server
            (V1.set_listener
               (GracefulListener (TCPListener (V1.Addr (V1.server w)))))
            (V1.emit (ENetListen "tcp" (V1.Addr (V1.server w))) w).2)).
Proof.
  split; intros eng w Hnil Hunix Hok.
  - unfold V1.ListenAndServe, V1.net_listen, V1.chooseNetwork, V1.emit.
    run_monad. rewrite Hnil. simpl. rewrite Hunix. simpl. by rewrite Hok.
  - unfold V1.ListenAndServe, V1.net_listen, V1.chooseNetwork, V1.emit.
    run_monad. rewrite Hnil. simpl. rewrite Hunix. simpl. by rewrite Hok.
Qed.

Lemma variant_1_ListenAndServe_on_unix_socket_panics_witness :
  (V1.ListenAndServe (mkEngine [] None)
     (V1.initWorld (V1.NewWithServer "/tmp/app.sock" false) listenOk)).1
    = Panic /\
  V1.effects
    (V1.ListenAndServe (mkEngine [] None)
       (V1.initWorld (V1.NewWithServer "/tmp/app.sock" false) listenOk)).2 =
    V1.effects (V1.initWorld (V1.NewWithServer "/tmp/app.sock" false) listenOk)
    ++ [ENetListen "unix"
          (V1.Addr (V1.server
             (V1.initWorld (V1.NewWithServer "/tmp/app.sock" false)
                listenOk)))] /\
  V1.server
    (V1.ListenAndServe (mkEngine [] None)
       (V1.initWorld (V1.NewWithServer "/tmp/app.sock" false) listenOk)).2 =
    V1.server (V1.initWorld (V1.NewWithServer "/tmp/app.sock" false) listenOk).
Proof.
  apply (proj1 variant_1_ListenAndServe_on_unix_socket_panics
           (mkEngine [] None)
           (V1.initWorld (V1.NewWithServer "/tmp/app.sock" false) listenOk));
    reflexivity.
Defined.

Lemma v2_listen_eq bind w :
  V2.listen bind w =
    if V2.isUnixNetwork bind then
      V2.listenToUnix bind
        (V2x.record [ELogPrintf "Listening on unix socket %s\n" bind] w)
    else if strings_Contains bind ":" then
      V2.net_listen "tcp" bind
        (V2x.record [ELogPrintf "Listening on tcp socket %s\n" bind] w)
    else
      (Ret (inr (errorString ("error while parsing bind arg " +:+ bind))), w).
Proof.
  unfold V2.listen. destruct (V2.isUnixNetwork bind); [done|].
  by destruct (strings_Contains bind ":").
Qed.

(** X8.  Variant 2, what [listen] does to the operating system.  It
    always returns (no panic, no wait).  It calls [net.Listen] at most on
    the address it was given: on network "unix" when the address starts
    with "/" or ".", on network "tcp" when it does not but contains a
    colon.  It calls [os.Remove] only on that address, only for a Unix
    address and only when [os.Stat] found a file there.  A listener it
    returns is of the kind of the network, on that address, and
    [net.Listen] has accepted it. *)
Theorem listen_touches_only_its_address (bind : string) (w : V2.World) :
  exists r es,
    V2.listen bind w = (Ret r, V2x.record es w) /\
    (forall network addr, ENetListen network addr ∈ es ->
       addr = bind /\
       ((network = "unix" /\ V2.isUnixNetwork bind = true) \/
        (network = "tcp" /\ V2.isUnixNetwork bind = false /\
         strings_Contains bind ":" = true))) /\
    (forall path, ERemove path ∈ es ->
       path = bind /\ V2.isUnixNetwork bind = true /\
       V2.os_Stat w bind = None) /\
    (forall l, r = inl l ->
       l = (if V2.isUnixNetwork bind
            then UnixListener bind else TCPListener bind) /\
       V2.net_Listen w (if V2.isUnixNetwork bind then "unix" else "tcp") bind
       = None /\
       ENetListen (if V2.isUnixNetwork bind then "unix" else "tcp") bind ∈ es).
Proof.
  rewrite v2_listen_eq.
  destruct (V2.isUnixNetwork bind) eqn:Hunix;
    [|destruct (strings_Contains bind ":") eqn:Hcolon].
  - rewrite ListenFacts.listenToUnix_eq. simpl.
    destruct (V2.os_Stat w bind) as [e|] eqn:Hstat;
      [destruct (os_IsNotExist e)|
       destruct (V2.os_Remove w bind) as [e|] eqn:Hrm];
      rewrite ?ListenFacts.net_listen_eq; simpl;
      try destruct (V2.net_Listen w "unix" bind) eqn:Hl;
      eexists _, _; (split; [unfold V2x.record; simpl;
                              rewrite <- ?app_assoc; simpl; reflexivity|]);
      repeat split; intros; simplify_eq; set_solver.
  - rewrite ListenFacts.net_listen_eq. simpl.
    destruct (V2.net_Listen w "tcp" bind) eqn:Hl;
      eexists _, _; (split; [unfold V2x.record; simpl;
                              rewrite <- ?app_assoc; simpl; reflexivity|]);
      repeat split; intros; simplify_eq; set_solver.
  - exists (inr (errorString ("error while parsing bind arg " +:+ bind))), [].
    split.
    { unfold V2x.record. rewrite app_nil_r. by destruct w. }
    repeat split; intros; simplify_eq; set_solver.
Qed.

(** * The registry of variant 1 *)

Module RegistryFacts.
Import Registry.

Lemma onServer_Close_open i p :
  shutdownOf p i = Some V1.ChanOpen ->
  exists p',
    onServer i V1.Close p = (Ret tt, p') /\
    shutdownOf p' i = Some V1.ChanClosed /\
    (forall j, j <> i -> heap p' !! j = heap p !! j) /\
    servers p' = servers p /\ m_locked p' = m_locked p /\
    length (heap p') = length (heap p).
Proof.
  unfold shutdownOf, onServer. destruct (heap p !! i) as [w|] eqn:Hw;
    [|discriminate].
  simpl. intros [= Hch].
  destruct (CloseFacts.v1_Close_open w Hch) as [Hr Hc].
  destruct (V1.Close w) as [r w'] eqn:Hcl. simpl in *. subst r.
  eexists. split; [done|]. simpl.
  assert (i < length (heap p))%nat by by eapply lookup_lt_Some.
  repeat split.
  - rewrite list_lookup_insert_eq by done. simpl. by rewrite Hc.
  - intros j Hne. by rewrite list_lookup_insert_ne.
  - by rewrite length_insert.
Qed.

Lemma onServer_Close_closed i p :
  shutdownOf p i = Some V1.ChanClosed ->
  onServer i V1.Close p = (Panic, p).
Proof.
  unfold shutdownOf, onServer. destruct (heap p !! i) as [w|] eqn:Hw;
    [|discriminate].
  simpl. intros [= Hch]. rewrite CloseFacts.v1_Close_closed by done.
  unfold set_heap. rewrite list_insert_id by done. by destruct p.
Qed.

Lemma onServer_Close_no_block i p : (onServer i V1.Close p).1 <> Block.
Proof.
  unfold onServer. destruct (heap p !! i) as [w|]; [|done].
  destruct (V1.shutdown (V1.server w)) eqn:Hch.
  - destruct (CloseFacts.v1_Close_open w Hch) as [Hr _].
    destruct (V1.Close w). simpl in *. by subst.
  - by rewrite CloseFacts.v1_Close_closed.
Qed.

Lemma onServer_Close_frame i p :
  servers (onServer i V1.Close p).2 = servers p /\
  m_locked (onServer i V1.Close p).2 = m_locked p /\
  forall j, j <> i ->
    shutdownOf (onServer i V1.Close p).2 j = shutdownOf p j.
Proof.
  unfold onServer, shutdownOf. destruct (heap p !! i) as [w|]; [|done].
  destruct (V1.Close w) as [r w']. simpl. repeat split.
  intros j Hne. by rewrite list_lookup_insert_ne.
Qed.

(** The loop of [Close] over servers that are all open. *)
Lemma closeEach_open l : forall p,
  NoDup l ->
  (forall i, i ∈ l -> shutdownOf p i = Some V1.ChanOpen) ->
  exists p',
    closeEach l p = (Ret tt, p') /\
    (forall i, i ∈ l -> shutdownOf p' i = Some V1.ChanClosed) /\
    (forall j, j ∉ l -> heap p' !! j = heap p !! j) /\
    servers p' = servers p /\ m_locked p' = m_locked p /\
    length (heap p') = length (heap p).
Proof.
  induction l as [|i l IH]; intros p Hnd Hopen.
  - exists p. repeat split; try done. intros i Hin. by apply elem_of_nil in Hin.
  - apply NoDup_cons in Hnd as [Hnin Hnd].
    destruct (onServer_Close_open i p) as (p1 & Hstep & Hc & Hfr & Hs & Hm & Hlen).
    { apply Hopen. by left. }
    destruct (IH p1 Hnd) as (p' & Hrun & Hcl & Hfr' & Hs' & Hm' & Hlen').
    { intros j Hj. unfold shutdownOf. rewrite Hfr.
      - apply Hopen. by right.
      - intros ->. done. }
    exists p'. simpl. unfold bind. rewrite Hstep. split; [done|].
    repeat split; try congruence.
    + intros j Hj. apply elem_of_cons in Hj as [->|Hj]; [|by apply Hcl].
      unfold shutdownOf. rewrite Hfr' by done. apply Hc.
    + intros j Hj. apply not_elem_of_cons in Hj as [Hne Hj].
      rewrite Hfr' by done. by apply Hfr.
Qed.

(** The loop panics as soon as it meets a server that is closed already,
    and leaves the registry and the mutex as they are. *)
Lemma closeEach_closed l : forall p i,
  i ∈ l -> shutdownOf p i = Some V1.ChanClosed ->
  (closeEach l p).1 = Panic /\
  servers (closeEach l p).2 = servers p /\
  m_locked (closeEach l p).2 = m_locked p.
Proof.
  induction l as [|j l IH]; intros p i Hin Hcl.
  - by apply elem_of_nil in Hin.
  - simpl. unfold bind. destruct (decide (j = i)) as [->|Hne].
    + by rewrite onServer_Close_closed.
    + apply elem_of_cons in Hin as [->|Hin]; [done|].
      pose proof (onServer_Close_no_block j p) as Hnb.
      destruct (onServer_Close_frame j p) as (Hs & Hm & Hfr).
      specialize (Hfr i (not_eq_sym Hne)).
      destruct (onServer j V1.Close p) as [[[]| |] p1]; simpl in *;
        try done.
      rewrite Hcl in Hfr.
      destruct (IH p1 i Hin Hfr) as (Hr & Hs1 & Hm1).
      repeat split; congruence.
Qed.

End RegistryFacts.

(** X9.  Variant 1, the package function [Close].  When the mutex is free
    and the registered servers are distinct and open, it returns; it has
    closed the channel of every registered server and touched no other;
    the registry is empty and the mutex is free again.  A second call is
    then a no-op: it returns and changes nothing. *)
Theorem package_Close_closes_every_server (p : Registry.Process) :
  Registry.m_locked p = false ->
  NoDup (Registry.servers p) ->
  (forall i, i ∈ Registry.servers p ->
     Registry.shutdownOf p i = Some V1.ChanOpen) ->
  exists p',
    Registry.Close p = (Ret tt, p') /\
    Registry.servers p' = [] /\
    Registry.m_locked p' = false /\
    (forall i, i ∈ Registry.servers p ->
       Registry.shutdownOf p' i = Some V1.ChanClosed) /\
    (forall j, j ∉ Registry.servers p ->
       Registry.heap p' !! j = Registry.heap p !! j) /\
    Registry.Close p' = (Ret tt, p').
Proof.
  intros Hm Hnd Hopen.
  destruct (RegistryFacts.closeEach_open (Registry.servers p)
              (Registry.set_locked true p) Hnd)
    as (p1 & Hrun & Hcl & Hfr & Hs & Hl & _).
  { intros i Hi. by apply Hopen. }
  exists (Registry.set_locked false (Registry.set_servers [] p1)).
  split.
  { unfold Registry.Close, Registry.Lock, Registry.Unlock. run_monad.
    rewrite Hm. simpl. by rewrite Hrun. }
  repeat split; done.
Qed.

(** X10.  Variant 1: the package function [Close] after a server was
    closed on its own.  When one of the registered servers has its channel
    closed already, [Close] panics; it has not cleared the registry and
    has not released the mutex, so the next call of [Close] waits for the
    mutex and does not return. *)
Theorem package_Close_panics_on_closed_server (p : Registry.Process) (i : nat) :
  Registry.m_locked p = false ->
  i ∈ Registry.servers p ->
  Registry.shutdownOf p i = Some V1.ChanClosed ->
  (Registry.Close p).1 = Panic /\
  Registry.servers (Registry.Close p).2 = Registry.servers p /\
  Registry.m_locked (Registry.Close p).2 = true /\
  (Registry.Close (Registry.Close p).2).1 = Block.
Proof.
  intros Hm Hin Hcl.
  destruct (RegistryFacts.closeEach_closed (Registry.servers p)
              (Registry.set_locked true p) i Hin Hcl) as (Hr & Hs & Hl).
  assert (Registry.Close p =
          (Panic, (Registry.closeEach (Registry.servers p)
                     (Registry.set_locked true p)).2)) as Heq.
  { unfold Registry.Close, Registry.Lock, Registry.Unlock. run_monad.
    rewrite Hm. simpl.
    destruct (Registry.closeEach _ _) as [r p1]. simpl in Hr. by subst r. }
  rewrite Heq. simpl. repeat split; try done.
  unfold Registry.Close, Registry.Lock. run_monad. by rewrite Hl.
Qed.

Lemma package_Close_closes_every_server_witness :
  exists p',
    Registry.Close Registry.twoServers = (Ret tt, p') /\
    Registry.servers p' = [] /\
    Registry.m_locked p' = false /\
    (forall i, i ∈ Registry.servers Registry.twoServers ->
       Registry.shutdownOf p' i = Some V1.ChanClosed) /\
    (forall j, j ∉ Registry.servers Registry.twoServers ->
       Registry.heap p' !! j = Registry.heap Registry.twoServers !! j) /\
    Registry.Close p' = (Ret tt, p').
Proof.
  apply (package_Close_closes_every_server Registry.twoServers).
  - reflexivity.
  - vm_compute. repeat constructor; set_solver.
  - intros i Hi. vm_compute in Hi.
    apply elem_of_cons in Hi as [->|Hi]; [reflexivity|].
    apply elem_of_cons in Hi as [->|Hi]; [reflexivity|].
    by apply elem_of_nil in Hi.
Defined.

Lemma package_Close_panics_on_closed_server_witness :
  (Registry.Close (Registry.onServer 0 V1.Close Registry.twoServers).2).1
    = Panic /\
  Registry.servers
    (Registry.Close (Registry.onServer 0 V1.Close Registry.twoServers).2).2
    = Registry.servers (Registry.onServer 0 V1.Close Registry.twoServers).2 /\
  Registry.m_locked
    (Registry.Close (Registry.onServer 0 V1.Close Registry.twoServers).2).2
    = true /\
  (Registry.Close
     (Registry.Close
        (Registry.onServer 0 V1.Close Registry.twoServers).2).2).1 = Block.
Proof.
  apply (package_Close_panics_on_closed_server
           (Registry.onServer 0 V1.Close Registry.twoServers).2 0%nat).
  - reflexivity.
  - vm_compute. set_solver.
  - reflexivity.
Defined.

(** X11.  Variant 1: the package function [ListenAndServe] registers the
    server it builds before it listens, and the server stays registered
    whatever happens next: when the call is over (returned, panicked or
    blocked) the registry is the old one followed by the new server, the
    new server is the only one touched, and the mutex is free. *)
Theorem package_ListenAndServe_registers (addr : string) (eng : Engine)
    (p : Registry.Process) :
  Registry.m_locked p = false ->
  Registry.servers (Registry.ListenAndServe addr eng p).2
    = Registry.servers p ++ [length (Registry.heap p)] /\
  Registry.m_locked (Registry.ListenAndServe addr eng p).2 = false /\
  length (Registry.heap (Registry.ListenAndServe addr eng p).2)
    = S (length (Registry.heap p)) /\
  (forall j w, Registry.heap p !! j = Some w ->
     Registry.heap (Registry.ListenAndServe addr eng p).2 !! j = Some w).
Proof.
  intros Hm.
  unfold Registry.ListenAndServe, Registry.register, Registry.Lock,
    Registry.Unlock, Registry.onServer.
  run_monad. rewrite Hm. simpl.
  rewrite lookup_app_r by lia. rewrite Nat.sub_diag. simpl.
  destruct (V1.ListenAndServe eng _) as [r w']. simpl.
  repeat split.
  - rewrite length_insert, length_app. simpl. lia.
  - intros j w Hj. assert (j < length (Registry.heap p))%nat
      by by eapply lookup_lt_Some.
    rewrite list_lookup_insert_ne by lia. by rewrite lookup_app_l.
Qed.

Lemma package_ListenAndServe_registers_witness :
  Registry.servers
    (Registry.ListenAndServe "localhost:0" (mkEngine drainedRun None)
       Registry.twoServers).2
    = Registry.servers Registry.twoServers
      ++ [length (Registry.heap Registry.twoServers)] /\
  Registry.m_locked
    (Registry.ListenAndServe "localhost:0" (mkEngine drainedRun None)
       Registry.twoServers).2 = false /\
  length (Registry.heap
    (Registry.ListenAndServe "localhost:0" (mkEngine drainedRun None)
       Registry.twoServers).2)
    = S (length (Registry.heap Registry.twoServers)) /\
  (forall j w, Registry.heap Registry.twoServers !! j = Some w ->
     Registry.heap
       (Registry.ListenAndServe "localhost:0" (mkEngine drainedRun None)
          Registry.twoServers).2 !! j = Some w).
Proof.
  apply (package_ListenAndServe_registers "localhost:0"
           (mkEngine drainedRun None) Registry.twoServers).
  reflexivity.
Defined.

(** * Routines of the handlers *)

(** X12.  Variant 2, [StartRoutine] and [FinishRoutine] as the handlers
    use them.  While a routine started on a drained server has not
    finished, the return block of [Serve] that has chosen to drain stays
    blocked; once the routine has finished it returns nil.  A
    [FinishRoutine] with nothing to finish (counter not positive) panics. *)
Theorem routines_hold_Serve_back :
  (forall w err,
     V2.wg (V2.server w) = 0 ->
     err = None \/ V2.closing w = 1 ->
     ((V2.StartRoutine ;;; V2.Serve_return err) w).1 = Block /\
     ((V2.StartRoutine ;;; V2.FinishRoutine ;;; V2.Serve_return err) w).1
       = Ret None) /\
  (forall w, V2.wg (V2.server w) <= 0 -> (V2.FinishRoutine w).1 = Panic).
Proof.
  split.
  - intros w err Hz Hdrain.
    assert (bool_decide (err = None) || (V2.closing w =? 1) = true) as Hc.
    { destruct Hdrain as [-> | ->]; [done|]. by rewrite orb_true_r. }
    unfold V2.StartRoutine, V2.FinishRoutine, V2.wg_Done, V2.wg_Add,
      V2.Serve_return, V2.wg_Wait.
    run_monad. rewrite Hz. simpl. by rewrite Hc.
  - intros w Hle. unfold V2.FinishRoutine, V2.wg_Done, V2.wg_Add. simpl.
    destruct (Z.ltb_spec (V2.wg (V2.server w) + -1) 0); [done|lia].
Qed.

Lemma routines_hold_Serve_back_witness :
  ((V2.StartRoutine ;;; V2.Serve_return None) V2.servingWorld).1 = Block /\
  ((V2.StartRoutine ;;; V2.FinishRoutine ;;; V2.Serve_return None)
     V2.servingWorld).1 = Ret None.
Proof.
  apply (proj1 routines_hold_Serve_back V2.servingWorld None).
  - reflexivity.
  - by left.
Defined.

(** * Serve in variant 1 *)

Module V1Serve.
Import V1 V1x.

Lemma v1_Serve_run_eq l eng w :
  shutdown (server w) = ChanOpen ->
  Serve_run l eng w = runEngine (events eng) (started l w).
Proof.
  intros Hch. unfold started, Serve_run, emit. run_monad.
  unfold set_server, set_listener, set_frame, set_waiting. simpl.
  rewrite Hch. simpl.
  destruct (isUnixNetwork (Addr (server w))); done.
Qed.

Lemma v1_started_facts l w :
  shutdown (server w) = ChanOpen ->
  wg (server (started l w)) = wg (server w) /\
  shutdown (server (started l w)) = ChanOpen.
Proof.
  intros Hch. unfold started, Serve_run, emit. run_monad.
  unfold set_server, set_listener, set_frame, set_waiting. simpl.
  rewrite Hch. simpl.
  destruct (isUnixNetwork (Addr (server w))); done.
Qed.

End V1Serve.

(** X13.  Variant 1, [Serve] from start to return, on a server at rest
    (counter zero, channel open) whose engine reports every connection in
    order and during which [Close] is called at most once.  When the
    accept loop returns no error or the error of the closed listener,
    [Serve] returns nil, exactly when no connection is in state New or
    Active at that point, and stays blocked in [wg.Wait] while one is.
    Every other error of the accept loop is returned at once, also after
    [Close] was called. *)
Theorem variant_1_Serve_from_start_to_return (l : Listener)
    (evs : list Event) (err : option error) (w : V1.World) :
  V1.wg (V1.server w) = 0 ->
  V1.shutdown (V1.server w) = V1.ChanOpen ->
  ordered evs = true ->
  (countClose evs <= 1)%nat ->
  (V1.Serve l (mkEngine evs err) w).1 =
    match err with
    | None | Some listenerAlreadyClosed =>
        if bool_decide (inFlight evs = ∅) then Ret None else Block
    | Some e => Ret (Some e)
    end.
Proof.
  intros Hz Hch Hord Hone.
  destruct (V1Serve.v1_started_facts l w Hch) as [Hwg Hsh].
  destruct (v1_runEngine_at_most_one_Close evs (V1x.started l w))
    as [Hrun _]; [congruence|done|done|].
  destruct (Hrun Hone) as (w1 & Hr & Hcnt).
  rewrite ServeFacts.v1_Serve_eq, V1Serve.v1_Serve_run_eq by done.
  simpl. rewrite Hr, ServeFacts.v1_Serve_return_eq. simpl.
  rewrite Hcnt, V2Serve.size_inFlight_zero. by destruct err as [[]|].
Qed.

Lemma variant_1_Serve_from_start_to_return_witness :
  (V1.Serve (TCPListener ":8080")
     (mkEngine drainedRun (Some listenerAlreadyClosed))
     (V1.initWorld (V1.NewWithServer ":8080" false) listenOk)).1 =
    if bool_decide (inFlight drainedRun = ∅) then Ret None else Block.
Proof.
  apply (variant_1_Serve_from_start_to_return (TCPListener ":8080")
           drainedRun (Some listenerAlreadyClosed)
           (V1.initWorld (V1.NewWithServer ":8080" false) listenOk)).
  - reflexivity.
  - reflexivity.
  - vm_compute. reflexivity.
  - simpl. lia.
Defined.
